(** * now list: resolution, aggregation and presentation of deployments

    A shallow embedding of [src/providers/sh/commands/list.js] (the
    [now ls] command) and the properties of its three stages:

    - the resolver (lines 110-138): direct listing, single-deployment lookup,
      alias indirection;
    - the aggregator (lines 142-157): instance expansion, grouping by
      application name in a [Map], the external sort;
    - the presenter (lines 159-262): column width, summary, hint, one section
      per application.

    The command is asynchronous JavaScript.  Its effects are modelled by a
    small monad [M] over a [World] that records, in order, the calls made on
    the network client and the lines written to the console; a computation
    ends by returning, by throwing, or by terminating the process. *)

From Stdlib Require Import List String Ascii ZArith Lia Bool Arith Permutation.
From Stdlib Require Import DecimalString.
Import ListNotations.
Open Scope string_scope.

(* ------------------------------------------------------------------ *)
(** ** Data model *)

Record Scale := { current : Z }.

Record Instance := { i_url : string }.

(** A deployment record as the listing service returns it.  [url], [state],
    [created], [scale] and [instances] may be absent ([undefined] or [null]):
    the code guards each of them.  [name] is the key of the grouping. *)
Record Deployment := {
  uid : string;
  name : string;
  url : option string;
  state : option string;
  created : option Z;
  scale : option Scale;
  instances : option (list Instance)
}.

Record Alias := { a_uid : string; alias : string; deploymentId : string }.

(** A JavaScript error value: what [`${err}`] and [err.stack] give. *)
Record Error := { message : string; stack : string }.

(** The settlement of a promise returned by a collaborator. *)
Inductive Reply (A : Type) : Type :=
| Resolved (a : A)
| Rejected (e : Error).
Arguments Resolved {A} a.
Arguments Rejected {A} e.

(** The network client [new Now(...)] of [../util].  [now.list] answers an
    array or, as line 119 allows for, a falsy value ([None]);
    [findDeployment] answers a deployment, [null] or [undefined] ([None]).
    The argument of both is the global [app], which is [undefined] ([None])
    when no positional argument was given.  A reply depends on the request
    only. *)
Record Now := {
  now_list : option string -> Reply (option (list Deployment));
  findDeployment : option string -> Reply (option Deployment);
  listAliases : Reply (list Alias);
  listInstances : string -> Reply (list Instance)
}.

(** The parsed command line, [mri]'s result: [underscore] is [argv._]. *)
Record Argv := { underscore : list string; help : bool; debug : bool; all : bool }.

Record Credential := { provider : string; token : string }.
Record AuthConfig := { credentials : list Credential }.
Record Team := { slug : option string }.
Record User := { username : option string; email : option string }.
Record Sh := { currentTeam : option Team; user : User }.
Record Config := { sh : Sh; includeScheme : bool }.
Record Ctx := {
  argv : list string;
  apiUrl : string;
  authConfig : AuthConfig;
  config : Config
}.

(** The module-level variables [app], [argv], [debug], [apiUrl] (lines
    56-59), which [main] assigns and [list] reads. *)
Record Globals := {
  g_app : option string;
  g_argv : Argv;
  g_debug : bool;
  g_apiUrl : string
}.

(** The two readings of the clock, [start] (line 103) and [timeNow]
    (line 163), in milliseconds. *)
Record Clock := { start : Z; timeNow : Z }.

(** The packages and utilities the file requires, which are not part of it:
    [mri], [chalk], [ms], [printf], [pluralize], [supports-color], and from
    the repository [logo], [sort-deployments], [handleError] and [error]
    (of which only the text they print matters here). *)
Record Packages := {
  mri : list string -> Argv;
  chalk_bold : string -> string;
  chalk_dim : string -> string;
  chalk_gray : string -> string;
  chalk_grey : string -> string;
  chalk_cyan : string -> string;
  chalk_red : string -> string;
  chalk_underline : string -> string;
  ms : Z -> string;
  printf : string -> list string -> string;
  plural : string -> nat -> bool -> string;
  supportsColor : bool;
  logo : string;
  sort : list (string * list Deployment) -> list (string * list Deployment);
  handleError_text : Error -> string;
  error : string -> string
}.

(* ------------------------------------------------------------------ *)
(** ** JavaScript values and coercions *)

Definition string_of_nat (n : nat) : string :=
  NilZero.string_of_uint (Nat.to_uint n).

Definition string_of_Z (z : Z) : string :=
  NilZero.string_of_int (Z.to_int z).

(** [!!s] for a possibly absent string: absent and [''] are falsy. *)
Definition truthy_string (s : option string) : bool :=
  match s with
  | None => false
  | Some s => negb (s =? "")
  end.

(** [a || b] on possibly absent strings. *)
Definition js_or (a b : option string) : option string :=
  if truthy_string a then a else b.

(** [x === app] for a string [x] and the possibly undefined [app]. *)
Definition strict_eq (x : string) (app : option string) : bool :=
  match app with
  | None => false
  | Some a => x =? a
  end.

(** [`${v}`] and ['' + v] for a possibly undefined string. *)
Definition to_string (v : option string) : string :=
  match v with
  | None => "undefined"
  | Some s => s
  end.

Definition newline : string := String (ascii_of_nat 10) "".

(** [/pat/.test(s)] for a literal pattern: [pat] occurs in [s]. *)
Fixpoint includes (pat s : string) : bool :=
  prefix pat s ||
  match s with
  | EmptyString => false
  | String _ s' => includes pat s'
  end.

(* ------------------------------------------------------------------ *)
(** ** Effects *)

(** A call on the network client. *)
Inductive Call :=
| CList (app : option string)
| CFind (id : option string)
| CAliases
| CInstances (uid : string)
| CClose.

(** The places of the source that write a line. *)
Inductive Site :=
| SHelp          (* line 20 *)
| SUnknownError  (* line 87 *)
| SHandleError   (* lines 96 and 115 *)
| SUsage         (* line 106 *)
| SSummary       (* line 164 *)
| SHint          (* line 186 *)
| SBlank         (* line 193 *)
| SGroupHeader   (* line 198 *)
| SColumns       (* line 206 *)
| SRow           (* line 240 *)
| SInstance      (* line 252 *)
| SInstanceEnd   (* line 257 *)
| SGroupEnd.     (* line 261 *)

Definition Site_eqb (a b : Site) : bool :=
  match a, b with
  | SHelp, SHelp | SUnknownError, SUnknownError | SHandleError, SHandleError
  | SUsage, SUsage | SSummary, SSummary | SHint, SHint | SBlank, SBlank
  | SGroupHeader, SGroupHeader | SColumns, SColumns | SRow, SRow
  | SInstance, SInstance | SInstanceEnd, SInstanceEnd
  | SGroupEnd, SGroupEnd => true
  | _, _ => false
  end.

Record Line := { site : Site; text : string }.

Record World := { calls : list Call; out : list Line }.

Definition empty_world : World := {| calls := []; out := [] |}.

Inductive Outcome (A : Type) : Type :=
| Ret (a : A)
| Throw (e : Error)
| Exit (code : Z).
Arguments Ret {A} a.
Arguments Throw {A} e.
Arguments Exit {A} code.

Definition M (A : Type) : Type := World -> Outcome A * World.

Definition ret {A} (a : A) : M A := fun w => (Ret a, w).

Definition bind {A B} (c : M A) (k : A -> M B) : M B :=
  fun w =>
    match c w with
    | (Ret a, w') => k a w'
    | (Throw e, w') => (Throw e, w')
    | (Exit code, w') => (Exit code, w')
    end.

Notation "x <- c ;; k" := (bind c (fun x => k))
  (at level 61, c at next level, right associativity).
Notation "c ;; k" := (bind c (fun _ => k))
  (at level 61, right associativity).

Definition throw {A} (e : Error) : M A := fun w => (Throw e, w).

(** [process.exit(code)]: nothing after it runs. *)
Definition process_exit {A} (code : Z) : M A := fun w => (Exit code, w).

(** Modelled from the spec: [exit] of [../../../util/exit] is not in the
    file; "a help flag prints usage and exits with status 0", so
    [await exit(code)] terminates the process with [code] and does not
    return. *)
Definition exit {A} (code : Z) : M A := process_exit code.

(** [try { c } catch (err) { h err }] *)
Definition try_catch {A} (c : M A) (h : Error -> M A) : M A :=
  fun w =>
    match c w with
    | (Throw e, w') => h e w'
    | r => r
    end.

(** [console.log] and [console.error] at a place of the source. *)
Definition console_log (s : Site) (t : string) : M unit :=
  fun w => (Ret tt, {| calls := calls w; out := out w ++ [{| site := s; text := t |}] |}).

Definition console_log_all (ls : list Line) : M unit :=
  fun w => (Ret tt, {| calls := calls w; out := out w ++ ls |}).

(** [await] of a call on the client: the call is recorded, a rejection is
    thrown. *)
Definition await {A} (c : Call) (r : Reply A) : M A :=
  fun w =>
    let w' := {| calls := calls w ++ [c]; out := out w |} in
    match r with
    | Resolved a => (Ret a, w')
    | Rejected e => (Throw e, w')
    end.

(** [now.close()] *)
Definition now_close : M unit :=
  fun w => (Ret tt, {| calls := calls w ++ [CClose]; out := out w |}).

Definition TypeError (msg : string) : Error :=
  {| message := "TypeError: " ++ msg; stack := "TypeError: " ++ msg |}.

(* ------------------------------------------------------------------ *)
(** ** The resolver (lines 110-138) *)

(** [e => e.uid === app || e.alias === app] (line 129) *)
Definition alias_matches (app : option string) (e : Alias) : bool :=
  strict_eq (a_uid e) app || strict_eq (alias e) app.

(** [aliases.find(...)] (line 129): the first entry that matches. *)
Definition alias_for (app : option string) (aliases : list Alias) : option Alias :=
  find (alias_matches app) aliases.

(** [!deployments || (Array.isArray(deployments) && deployments.length <= 0)] *)
Definition is_empty (deployments : option (list Deployment)) : bool :=
  match deployments with
  | None => true
  | Some ds => (List.length ds <=? 0)%nat
  end.

Section Command.

Variable P : Packages.

Definition handleError (err : Error) : M unit :=
  console_log SHandleError (handleError_text P err).

Definition resolve (now : Now) (app : option string)
  : M (option (list Deployment)) :=
  (* lines 112-117 *)
  deployments <-
    try_catch (await (CList app) (now_list now app))
              (fun err => handleError err ;; process_exit 1) ;;
  (* lines 119-125 *)
  deployments <-
    (if is_empty deployments then
       match_ <- await (CFind app) (findDeployment now app) ;;
       match match_ with
       | Some m => ret (Some [m])
       | None => ret deployments
       end
     else ret deployments) ;;
  (* lines 127-138 *)
  deployments <-
    (if is_empty deployments then
       aliases <- await CAliases (listAliases now) ;;
       match alias_for app aliases with
       | Some item =>
           match_ <- await (CFind (Some (deploymentId item)))
                           (findDeployment now (Some (deploymentId item))) ;;
           match match_ with
           | Some m => ret (Some [m])
           | None => ret deployments
           end
       | None => ret deployments
       end
     else ret deployments) ;;
  ret deployments.

(* ------------------------------------------------------------------ *)
(** ** The aggregator (lines 142-157) *)

Definition set_instances (d : Deployment) (l : list Instance) : Deployment :=
  {| uid := uid d; name := name d; url := url d; state := state d;
     created := created d; scale := scale d; instances := Some l |}.

(** The join of [Promise.all] (line 145): every callback assigns the
    fetched list to its own deployment (line 147); one rejection rejects
    the whole.  Which rejection wins when several fetches fail is a matter
    of timing; the first in the order of the array is taken here. *)
Fixpoint settle_all (now : Now) (ds : list Deployment)
  : Error + list Deployment :=
  match ds with
  | [] => inr []
  | d :: ds' =>
      match listInstances now (uid d) with
      | Rejected e => inl e
      | Resolved l =>
          match settle_all now ds' with
          | inl e => inl e
          | inr r => inr (set_instances d l :: r)
          end
      end
  end.

(** Lines 145-149.  [map] runs every callback up to its [await], so all the
    fetches are issued, in the order of the array, before any is settled. *)
Definition expand (now : Now) (ds : list Deployment) : M (list Deployment) :=
  fun w =>
    let w' := {| calls := calls w ++ map (fun d => CInstances (uid d)) ds;
                 out := out w |} in
    match settle_all now ds with
    | inr ds' => (Ret ds', w')
    | inl e => (Throw e, w')
    end.

(** The [Map] [apps]: keys in the order of their first insertion. *)
Definition AppMap := list (string * list Deployment).

Fixpoint Map_get (m : AppMap) (k : string) : option (list Deployment) :=
  match m with
  | [] => None
  | (k', v) :: m' => if k' =? k then Some v else Map_get m' k
  end.

Fixpoint Map_set (m : AppMap) (k : string) (v : list Deployment) : AppMap :=
  match m with
  | [] => [(k, v)]
  | (k', v') :: m' =>
      if k' =? k then (k, v) :: m' else (k', v') :: Map_set m' k v
  end.

(** Lines 152-155. *)
Definition group (deployments : list Deployment) : AppMap :=
  fold_left
    (fun apps dep =>
       let deps := match Map_get apps (name dep) with
                   | Some deps => deps
                   | None => []
                   end in
       Map_set apps (name dep) (deps ++ [dep]))
    deployments [].

(* ------------------------------------------------------------------ *)
(** ** The presenter (lines 159-262) *)

(** [(i.url && i.url.length) || 0] *)
Definition url_length_of (i : Deployment) : nat :=
  match url i with
  | Some u => String.length u
  | None => 0
  end.

(** Lines 159-162. *)
Definition urlLength (deployments : list Deployment) : nat :=
  fold_left (fun acc i => Nat.max acc (url_length_of i)) deployments 0 + 5.

(** The values an entry [[name, deps]] of the [Map] holds, and the elements
    of [deps]. *)
Inductive Value :=
| VString (s : string)
| VArray (l : list Deployment)
| VObject (d : Deployment).

(** [v.scale]: a deployment object has the property; a string and an array
    have not ([undefined]). *)
Definition prop_scale (v : Value) : option Scale :=
  match v with
  | VObject d => scale d
  | VString _ | VArray _ => None
  end.

(** [depl => depl.scale && depl.scale.current > 1] (lines 177-179) *)
Definition scaled_out (depl : Value) : bool :=
  match prop_scale depl with
  | Some sc => (current sc >? 1)%Z
  | None => false
  end.

Definition truthy (v : option Value) : bool :=
  match v with
  | None => false
  | Some (VString s) => negb (s =? "")
  | Some (VArray _) | Some (VObject _) => true
  end.

(** An entry of the [Map] as [for (const app of apps)] yields it: the
    two-element array [[name, deps]]. *)
Definition entry (app : string * list Deployment) : list Value :=
  [VString (fst app); VArray (snd app)].

(** Lines 172-183: [app[1].length > 5 || app.find(...)], leaving the loop at
    the first truthy value. *)
Fixpoint shouldShowAllInfo (apps : AppMap) : bool :=
  match apps with
  | [] => false
  | app :: rest =>
      if (5 <? List.length (snd app))%nat || truthy (find scaled_out (entry app))
      then true
      else shouldShowAllInfo rest
  end.

(** [(currentTeam && currentTeam.slug) || user.username || user.email] *)
Definition scope_of (s : Sh) : option string :=
  js_or (js_or (match currentTeam s with
                | Some t => slug t
                | None => None
                end)
               (username (user s)))
        (email (user s)).

(** Lines 164-170. *)
Definition summary_line (s : Sh) (clock : Clock) (deployments : list Deployment)
  : Line :=
  {| site := SSummary;
     text := "> " ++ plural P "deployment" (List.length deployments) true
             ++ " found under " ++ chalk_bold P (to_string (scope_of s))
             ++ " " ++ chalk_grey P ("[" ++ ms P (timeNow clock - start clock) ++ "]") |}.

(** Lines 186-190. *)
Definition hint_line : Line :=
  {| site := SHint;
     text := "> To expand the list and see instances run "
             ++ chalk_cyan P "`now ls --all [app]`" |}.

(** Lines 198-202. *)
Definition header_line (name : string) (listed total : nat) : Line :=
  {| site := SGroupHeader;
     text := chalk_bold P name ++ " "
             ++ chalk_gray P ("(" ++ string_of_nat listed ++ " of "
                              ++ string_of_nat total ++ " total)") |}.

(** Lines 204-214. *)
Definition columns_line (urlLength : nat) : Line :=
  let urlSpec := "%-" ++ string_of_nat urlLength ++ "s" in
  {| site := SColumns;
     text := printf P (" " ++ chalk_grey P (urlSpec ++ "  %8s    %-16s %8s"))
                    ["url"; "inst #"; "state"; "age"] |}.

(** Lines 250-258. *)
Definition instance_lines (urlLength : nat) (dep : Deployment) : list Line :=
  match instances dep with
  | Some (i :: l) =>
      map (fun i => {| site := SInstance;
                       text := printf P (" %-" ++ string_of_nat (urlLength + 10) ++ "s")
                                      [" - " ++ chalk_underline P (i_url i)] |})
          (i :: l)
      ++ [{| site := SInstanceEnd; text := "" |}]
  | Some [] | None => []
  end.

(** Lines 216-259, one deployment. *)
Definition row_lines (urlLength : nat) (includeScheme : bool) (clock : Clock)
    (dep : Deployment) : list Line :=
  let state0 := match state dep with
                | None => "DEPLOYMENT_ERROR"
                | Some s => s
                end in
  let '(state1, extraSpaceForState) :=
    if includes "ERROR" state0 then (chalk_red P state0, 10)
    else if state0 =? "FROZEN" then (chalk_grey P state0, 10)
    else (state0, 0) in
  let spec :=
    if supportsColor P
    then " %-" ++ string_of_nat (urlLength + 10) ++ "s %8s    %-"
         ++ string_of_nat (extraSpaceForState + 16) ++ "s %8s"
    else " %-" ++ string_of_nat (urlLength + 1) ++ "s %8s    %-"
         ++ string_of_nat 16 ++ "s %8s" in
  {| site := SRow;
     text := printf P spec
               [chalk_underline P ((if includeScheme then "https://" else "")
                                   ++ to_string (url dep));
                match scale dep with
                | Some sc => string_of_Z (current sc)
                | None => "✖"
                end;
                state1;
                match created dep with
                | Some c => if (c =? 0)%Z then "n/a" else ms P (timeNow clock - c)
                | None => "n/a"
                end] |}
  :: instance_lines urlLength dep.

(** Lines 195-262, one group. *)
Definition render_group (all : bool) (urlLength : nat) (includeScheme : bool)
    (clock : Clock) (g : string * list Deployment) : list Line :=
  let '(name, deps) := g in
  let listedDeployments := if all then deps else firstn 5 deps in
  header_line name (List.length listedDeployments) (List.length deps)
  :: columns_line urlLength
  :: flat_map (row_lines urlLength includeScheme clock) listedDeployments
  ++ [{| site := SGroupEnd; text := "" |}].

(** Lines 159-262: everything written once the deployments are known. *)
Definition present (all : bool) (s : Sh) (includeScheme : bool) (clock : Clock)
    (deployments : list Deployment) (apps sorted : AppMap) : list Line :=
  summary_line s clock deployments
  :: (if negb all && shouldShowAllInfo apps then [hint_line] else [])
  ++ {| site := SBlank; text := "" |}
  :: flat_map (render_group all (urlLength deployments) includeScheme clock) sorted.

(* ------------------------------------------------------------------ *)
(** ** The command *)

(** Line 106. *)
Definition usage_text : string := "> You must define an app when using `--all`".

(** [async function list] (lines 101-263); named [list_command] since
    [list] is the type of lists. *)
Definition list_command (g : Globals) (now : Now) (clock : Clock)
    (s : Sh) (includeScheme : bool) : M unit :=
  let all := all (g_argv g) in
  (* lines 105-108 *)
  (if all && negb (truthy_string (g_app g))
   then console_log SUsage usage_text ;; process_exit 1
   else ret tt) ;;
  deployments <- resolve now (g_app g) ;;
  now_close ;;
  (* lines 144-150; [deployments.map] of [undefined] throws *)
  deployments <-
    (if all then
       match deployments with
       | Some ds => ds' <- expand now ds ;; ret (Some ds')
       | None => throw (TypeError "Cannot read property 'map' of undefined")
       end
     else ret deployments) ;;
  (* line 152: [for (const dep of deployments)] of [undefined] throws *)
  match deployments with
  | None => throw (TypeError "deployments is not iterable")
  | Some ds =>
      let apps := group ds in
      let sorted := sort P apps in
      console_log_all (present all s includeScheme clock ds apps sorted)
  end.

(** Line 87. *)
Definition unknown_error_line (err : Error) : Line :=
  {| site := SUnknownError;
     text := error P ("Unknown error: " ++ message err ++ newline ++ stack err) |}.

(** The [try] of [main] around the call of [list] (lines 84-89). *)
Definition list_or_exit (g : Globals) (now : Now) (clock : Clock)
    (s : Sh) (includeScheme : bool) : M unit :=
  try_catch (list_command g now clock s includeScheme)
            (fun err =>
               console_log_all [unknown_error_line err] ;; process_exit 1).

(** The usage text of [help] (lines 19-53), its layout and the descriptions
    of the options left out. *)
Definition help_text : string :=
  "  " ++ chalk_bold P (logo P ++ " now list") ++ " [app]  "
  ++ chalk_dim P "Options:"
  ++ "  -h, --help  -A " ++ chalk_bold P (chalk_underline P "FILE")
  ++ ", --local-config=" ++ chalk_bold P (chalk_underline P "FILE")
  ++ "  -Q " ++ chalk_bold P (chalk_underline P "DIR")
  ++ ", --global-config=" ++ chalk_bold P (chalk_underline P "DIR")
  ++ "  -d, --debug  -t " ++ chalk_bold P (chalk_underline P "TOKEN")
  ++ ", --token=" ++ chalk_bold P (chalk_underline P "TOKEN")
  ++ "  -T, --team  --all  " ++ chalk_dim P "Examples:"
  ++ "  " ++ chalk_cyan P "$ now ls"
  ++ "  " ++ chalk_cyan P "$ now ls my-app"
  ++ "  " ++ chalk_cyan P "$ now ls my-app --all".

Definition help_ : M unit := console_log SHelp help_text.

(** [main] (lines 61-90).  [credentials.find] may find nothing, and the
    destructuring of [undefined] throws. *)
Definition main (clock : Clock) (now : Now) (ctx : Ctx) : M unit :=
  let argv0 := mri P (skipn 2 (argv ctx)) in
  let argv1 := {| underscore := skipn 1 (underscore argv0);
                  help := help argv0; debug := debug argv0;
                  all := all argv0 |} in
  let app := nth_error (underscore argv1) 0 in
  let g := {| g_app := app; g_argv := argv1; g_debug := debug argv1;
              g_apiUrl := apiUrl ctx |} in
  (if help argv1 || strict_eq "help" app
   then help_ ;; exit 0
   else ret tt) ;;
  match find (fun item => provider item =? "sh")
             (credentials (authConfig ctx)) with
  | None => throw (TypeError "Cannot destructure property 'token' of undefined")
  | Some _ =>
      list_or_exit g now clock (sh (config ctx)) (includeScheme (config ctx))
  end.

(** [module.exports] (lines 92-99). *)
Definition module_exports (clock : Clock) (now : Now) (ctx : Ctx) : M unit :=
  try_catch (main clock now ctx)
            (fun err => handleError err ;; process_exit 1).

End Command.

(** Running a command from the start of the process. *)
Definition run {A} (c : M A) : Outcome A * World := c empty_world.

Definition sites (w : World) : list Site := map site (out w).

(* ------------------------------------------------------------------ *)
(** ** A plain environment

    Packages without styling, used to run the command on concrete inputs. *)

Definition starts_with_dash (s : string) : bool := prefix "-" s.

Definition plain_mri (args : list string) : Argv :=
  {| underscore := filter (fun a => negb (starts_with_dash a)) args;
     help := existsb (fun a => (a =? "--help") || (a =? "-h")) args;
     debug := existsb (fun a => (a =? "--debug") || (a =? "-d")) args;
     all := existsb (fun a => a =? "--all") args |}.

Definition plain_plural (word : string) (n : nat) (inclusive : bool) : string :=
  (if inclusive then string_of_nat n ++ " " else "")
  ++ word ++ (if (n =? 1)%nat then "" else "s").

Definition plain : Packages :=
  {| mri := plain_mri;
     chalk_bold := fun s => s;
     chalk_dim := fun s => s;
     chalk_gray := fun s => s;
     chalk_grey := fun s => s;
     chalk_cyan := fun s => s;
     chalk_red := fun s => s;
     chalk_underline := fun s => s;
     ms := fun z => string_of_Z z ++ "ms";
     printf := fun fmt args => String.concat " " args;
     plural := plain_plural;
     supportsColor := false;
     logo := "now";
     sort := fun apps => apps;
     handleError_text := fun e => "> Error! " ++ message e;
     error := fun s => "> Error! " ++ s |}.

Definition no_scale_dep (u n l : string) : Deployment :=
  {| uid := u; name := n; url := Some l; state := Some "READY";
     created := Some 1000%Z; scale := None; instances := None |}.

Definition some_sh : Sh :=
  {| currentTeam := None;
     user := {| username := Some "jo"; email := Some "jo@x.co" |} |}.

Definition some_clock : Clock := {| start := 0; timeNow := 5000 |}.

Definition transport_error : Error :=
  {| message := "Error: socket hang up"; stack := "Error: socket hang up" |}.

Definition globals_of (app : option string) (expand_all : bool) : Globals :=
  {| g_app := app;
     g_argv := {| underscore := match app with Some a => [a] | None => [] end;
                  help := false; debug := false; all := expand_all |};
     g_debug := false;
     g_apiUrl := "https://api.zeit.co" |}.

(** Clients for the concrete runs. *)

(** Every request is rejected. *)
Definition now_down : Now :=
  {| now_list := fun _ => Rejected transport_error;
     findDeployment := fun _ => Rejected transport_error;
     listAliases := Rejected transport_error;
     listInstances := fun _ => Rejected transport_error |}.

(** Nothing is deployed and nothing is aliased. *)
Definition now_nothing : Now :=
  {| now_list := fun _ => Resolved (Some []);
     findDeployment := fun _ => Resolved None;
     listAliases := Resolved [];
     listInstances := fun _ => Resolved [] |}.

(** The listing is empty; the lookup and the alias table are down. *)
Definition now_lookup_down : Now :=
  {| now_list := fun _ => Resolved (Some []);
     findDeployment := fun _ => Rejected transport_error;
     listAliases := Rejected transport_error;
     listInstances := fun _ => Resolved [] |}.

Definition alias_stale : Alias :=
  {| a_uid := "a1"; alias := "foo.now.sh"; deploymentId := "d1" |}.

Definition alias_live : Alias :=
  {| a_uid := "a2"; alias := "foo.now.sh"; deploymentId := "d2" |}.

Definition dep_live : Deployment := no_scale_dep "d2" "foo" "foo-abc.now.sh".

(** Two entries of the alias table carry the same name; only the
    deployment of the second exists. *)
Definition now_two_aliases : Now :=
  {| now_list := fun _ => Resolved (Some []);
     findDeployment := fun id =>
       match id with
       | Some i => if i =? "d2" then Resolved (Some dep_live) else Resolved None
       | None => Resolved None
       end;
     listAliases := Resolved [alias_stale; alias_live];
     listInstances := fun _ => Resolved [] |}.

(** One entry of the alias table, whose deployment exists. *)
Definition now_one_alias : Now :=
  {| now_list := fun _ => Resolved (Some []);
     findDeployment := fun id =>
       match id with
       | Some i => if i =? "d2" then Resolved (Some dep_live) else Resolved None
       | None => Resolved None
       end;
     listAliases := Resolved [alias_live];
     listInstances := fun _ => Resolved [] |}.

Definition ctx_of (args : list string) : Ctx :=
  {| argv := "node" :: "now" :: args;
     apiUrl := "https://api.zeit.co";
     authConfig := {| credentials := [{| provider := "sh"; token := "t0k" |}] |};
     config := {| sh := some_sh; includeScheme := false |} |}.

Definition some_instance : Instance := {| i_url := "api-abc-1.now.sh" |}.

(** Two deployments of one application; the instances of the first cannot
    be fetched, those of the second can. *)
Definition now_one_fetch_fails : Now :=
  {| now_list := fun _ =>
       Resolved (Some [no_scale_dep "d1" "api" "api-abc.now.sh";
                       no_scale_dep "d2" "api" "api-def.now.sh"]);
     findDeployment := fun _ => Resolved None;
     listAliases := Resolved [];
     listInstances := fun u =>
       if u =? "d1" then Rejected transport_error
       else Resolved [some_instance] |}.

(** One deployment, running on three instances. *)
Definition dep_scaled : Deployment :=
  {| uid := "d1"; name := "api"; url := Some "api.x.co";
     state := Some "READY"; created := Some 1000%Z;
     scale := Some {| current := 3 |}; instances := None |}.

Definition now_scaled : Now :=
  {| now_list := fun _ => Resolved (Some [dep_scaled]);
     findDeployment := fun _ => Resolved None;
     listAliases := Resolved [];
     listInstances := fun _ => Resolved [] |}.

(** The number of deployment rows among some lines. *)
Definition rows (ls : list Line) : nat :=
  List.length (filter (fun l => Site_eqb (site l) SRow) ls).

(** What the presenter needs of [sort-deployments], which is not in the
    file: a deployment of a sorted group is a deployment of some group. *)
Definition sort_keeps_members (sort : AppMap -> AppMap) : Prop :=
  forall apps name deps d,
    In (name, deps) (sort apps) -> In d deps ->
    exists name' deps', In (name', deps') apps /\ In d deps'.

(** The number of lines written at a place of the source. *)
Definition count_site (s : Site) (ls : list Line) : nat :=
  List.length (filter (fun l => Site_eqb (site l) s) ls).


(** [dep.name === n] *)
Definition named (n : string) (d : Deployment) : bool := name d =? n.

(** Reference for the order of the keys of a [Map] filled key by key: the
    names in the order of their first appearance, those of [seen] left
    out. *)
Fixpoint first_seen (seen names : list string) : list string :=
  match names with
  | [] => []
  | n :: rest =>
      if existsb (String.eqb n) seen then first_seen seen rest
      else n :: first_seen (n :: seen) rest
  end.

(** The step of the loop of lines 152-155. *)
Definition group_step (apps : AppMap) (dep : Deployment) : AppMap :=
  let deps := match Map_get apps (name dep) with
              | Some deps => deps
              | None => []
              end in
  Map_set apps (name dep) (deps ++ [dep]).

(** Rows to write for a group of [n] deployments (line 196). *)
Definition listed (expand_all : bool) (n : nat) : nat :=
  if expand_all then n else Nat.min n 5.

(** The instances a deployment carries, none when the array is absent. *)
Definition instances_of (d : Deployment) : list Instance :=
  match instances d with
  | Some l => l
  | None => []
  end.

(** The listing gives two applications, the second met between two
    deployments of the first. *)
Definition now_two_apps : Now :=
  {| now_list := fun _ =>
       Resolved (Some [no_scale_dep "d1" "api" "api-abc.now.sh";
                       no_scale_dep "d2" "web" "web-abc.now.sh";
                       no_scale_dep "d3" "api" "api-def.now.sh"]);
     findDeployment := fun _ => Resolved None;
     listAliases := Resolved [];
     listInstances := fun u => Resolved [{| i_url := u ++ "-1.now.sh" |}] |}.

(** The listing is empty and the target is the id of a deployment. *)
Definition now_by_id : Now :=
  {| now_list := fun _ => Resolved (Some []);
     findDeployment := fun id =>
       match id with
       | Some i => if i =? "d2" then Resolved (Some dep_live) else Resolved None
       | None => Resolved None
       end;
     listAliases := Rejected transport_error;
     listInstances := fun _ => Resolved [] |}.

Definition ctx_without_credentials (args : list string) : Ctx :=
  {| argv := "node" :: "now" :: args;
     apiUrl := "https://api.zeit.co";
     authConfig := {| credentials := [{| provider := "aws"; token := "k" |}] |};
     config := {| sh := some_sh; includeScheme := false |} |}.

(** Tier 1 completed and gave no deployment: an empty array, or no array. *)
Definition tier1_empty (now : Now) (app : option string) : Prop :=
  exists d, now_list now app = Resolved d /\ is_empty d = true.

(* ------------------------------------------------------------------ *)
(** ** The resolver: fallback and failure *)

Ltac run_resolve :=
  unfold run, resolve, alias_for, bind, try_catch, await, handleError,
    console_log, process_exit, ret, empty_world; simpl.

Lemma is_empty_singleton (m : Deployment) : is_empty (Some [m]) = false.
Proof. reflexivity. Qed.

(** [resolve] writes nothing unless tier 1 is rejected, and then it does not
    return. *)
Lemma resolve_ret_out (P : Packages) (now : Now) (app : option string)
    (x : option (list Deployment)) (w : World) :
  run (resolve P now app) = (Ret x, w) -> out w = [].
Proof.
  run_resolve.
  destruct (now_list now app) as [d|e]; simpl; [|discriminate].
  destruct (is_empty d) eqn:Hd; simpl.
  - destruct (findDeployment now app) as [[m|]|e]; simpl;
      try (intros H; inversion H; reflexivity).
    rewrite Hd.
    destruct (listAliases now) as [al|e]; simpl;
      try (intros H; inversion H; reflexivity).
    destruct (find _ al) as [item|]; simpl;
      try (intros H; inversion H; reflexivity).
    destruct (findDeployment now (Some (deploymentId item))) as [[m|]|e]; simpl;
      intros H; inversion H; reflexivity.
  - rewrite Hd. intros H; inversion H; reflexivity.
Qed.

Lemma bind_ret {A B} (c : M A) (k : A -> M B) (w w' : World) (a : A) :
  c w = (Ret a, w') -> bind c k w = k a w'.
Proof. unfold bind. now intros ->. Qed.

Lemma bind_throw {A B} (c : M A) (k : A -> M B) (w w' : World) (e : Error) :
  c w = (Throw e, w') -> bind c k w = (Throw e, w').
Proof. unfold bind. now intros ->. Qed.

Lemma bind_exit {A B} (c : M A) (k : A -> M B) (w w' : World) (code : Z) :
  c w = (Exit code, w') -> bind c k w = (Exit code, w').
Proof. unfold bind. now intros ->. Qed.

(** [resolve] terminates the process only with status 1. *)
Lemma resolve_exit_code (P : Packages) (now : Now) (app : option string)
    (code : Z) (w : World) :
  run (resolve P now app) = (Exit code, w) -> code = 1%Z.
Proof.
  run_resolve.
  destruct (now_list now app) as [d|e]; simpl.
  - destruct (is_empty d) eqn:Hd; simpl.
    + destruct (findDeployment now app) as [[m|]|e]; simpl;
        try discriminate.
      rewrite Hd.
      destruct (listAliases now) as [al|e]; simpl; try discriminate.
      destruct (find _ al) as [item|]; simpl; try discriminate.
      destruct (findDeployment now (Some (deploymentId item))) as [[m|]|e];
        simpl; discriminate.
    + rewrite Hd. discriminate.
  - intros H; inversion H; reflexivity.
Qed.

(** When [resolve] does not return, the command ends there: nothing is
    called after it, and the process exits with status 1. *)
Lemma resolve_abort_ends_command (P : Packages) (g : Globals) (now : Now)
    (clock : Clock) (s : Sh) (inc : bool) :
  all (g_argv g) && negb (truthy_string (g_app g)) = false ->
  (forall x w, run (resolve P now (g_app g)) <> (Ret x, w)) ->
  fst (run (list_or_exit P g now clock s inc)) = Exit 1 /\
  calls (snd (run (list_or_exit P g now clock s inc)))
  = calls (snd (run (resolve P now (g_app g)))).
Proof.
  intros Hg Hno.
  unfold run, list_or_exit, list_command, try_catch in *.
  rewrite Hg.
  rewrite (bind_ret (ret tt) _ empty_world empty_world tt eq_refl).
  destruct (resolve P now (g_app g) empty_world) as [[x|e|code] w] eqn:Hr.
  - exfalso. exact (Hno x w eq_refl).
  - rewrite (bind_throw _ _ _ _ _ Hr). simpl. split; reflexivity.
  - rewrite (bind_exit _ _ _ _ _ Hr). simpl.
    rewrite (resolve_exit_code P now (g_app g) code w Hr).
    split; reflexivity.
Qed.

(** One outcome of [resolve] against the conjuncts of the statement. *)
Ltac resolve_leaf :=
  let Hlast := fresh "Hlast" in
  intros Hlast;
  repeat match goal with |- _ /\ _ => split end;
  intros; simpl in *;
  first
    [ discriminate
    | reflexivity
    | congruence
    | solve [apply Hlast; assumption]
    | solve [match goal with
             | H : forall x w, _ <> _ |- _ => exfalso; eapply H; reflexivity
             end]
    | solve [match goal with
             | H : exists _, _ |- _ => destruct H as (? & ? & ?); congruence
             end]
    | solve [match goal with
             | H : Some _ = Some _ |- _ => inversion H; subst; eauto 8
             end]
    | solve [eauto 8] ].

(** C1.  In [resolve], the second call on the client, if any, is the lookup
    of the target and is made only when the listing completed and gave no
    deployment; the third, if any, is the fetch of the alias table and is
    made only when moreover the lookup completed and found nothing; the
    fourth, if any, is the lookup of the picked alias; there is no fifth.
    When the listing is rejected the process exits with status 1 after that
    one call; when a later call is rejected the error is thrown right after
    it; and in both cases the command makes no further call and exits with
    status 1. *)
Theorem C1_fallback_only_after_empty_success
    (P : Packages) (now : Now) (app : option string) :
  let r := run (resolve P now app) in
  let cs := calls (snd r) in
  (forall c, nth_error cs 1 = Some c -> c = CFind app /\ tier1_empty now app) /\
  (forall c, nth_error cs 2 = Some c ->
     c = CAliases /\ tier1_empty now app /\
     findDeployment now app = Resolved None) /\
  (forall c, nth_error cs 3 = Some c ->
     exists aliases item,
       listAliases now = Resolved aliases /\
       alias_for app aliases = Some item /\
       c = CFind (Some (deploymentId item))) /\
  nth_error cs 4 = None /\
  (forall e, now_list now app = Rejected e ->
     r = (Exit 1, {| calls := [CList app];
                     out := [{| site := SHandleError;
                                text := handleError_text P e |}] |})) /\
  (forall e, tier1_empty now app -> findDeployment now app = Rejected e ->
     r = (Throw e, {| calls := [CList app; CFind app]; out := [] |})) /\
  (forall e, tier1_empty now app -> findDeployment now app = Resolved None ->
     listAliases now = Rejected e ->
     r = (Throw e, {| calls := [CList app; CFind app; CAliases]; out := [] |})) /\
  (forall e aliases item,
     tier1_empty now app -> findDeployment now app = Resolved None ->
     listAliases now = Resolved aliases ->
     alias_for app aliases = Some item ->
     findDeployment now (Some (deploymentId item)) = Rejected e ->
     r = (Throw e, {| calls := [CList app; CFind app; CAliases;
                                CFind (Some (deploymentId item))];
                      out := [] |})) /\
  (forall g clock s inc,
     g_app g = app ->
     all (g_argv g) && negb (truthy_string app) = false ->
     (forall x w, r <> (Ret x, w)) ->
     fst (run (list_or_exit P g now clock s inc)) = Exit 1 /\
     calls (snd (run (list_or_exit P g now clock s inc))) = cs).
Proof.
  cbv zeta.
  assert (Hlast : forall g clock s inc,
     g_app g = app ->
     all (g_argv g) && negb (truthy_string app) = false ->
     (forall x w, run (resolve P now app) <> (Ret x, w)) ->
     fst (run (list_or_exit P g now clock s inc)) = Exit 1 /\
     calls (snd (run (list_or_exit P g now clock s inc)))
     = calls (snd (run (resolve P now app)))).
  { intros g clock s inc <- Hg Hno. now apply resolve_abort_ends_command. }
  revert Hlast. unfold tier1_empty, alias_for. run_resolve.
  destruct (now_list now app) as [d|e1] eqn:H1; simpl.
  - destruct (is_empty d) eqn:Hd; simpl.
    + destruct (findDeployment now app) as [[m|]|e2] eqn:H2; simpl.
      * resolve_leaf.
      * rewrite Hd.
        destruct (listAliases now) as [al|e3] eqn:H3; simpl.
        -- destruct (find _ al) as [item|] eqn:H4; simpl.
           ++ destruct (findDeployment now (Some (deploymentId item)))
                as [[m|]|e4] eqn:H5; simpl; resolve_leaf.
           ++ resolve_leaf.
        -- resolve_leaf.
      * resolve_leaf.
    + rewrite Hd. resolve_leaf.
  - resolve_leaf.
Qed.

(** The listing is rejected: one call, the error is reported, exit 1.  The
    lookup is rejected after an empty listing: two calls, exit 1. *)
Lemma C1_witness :
  run (resolve plain now_down (Some "api"))
  = (Exit 1, {| calls := [CList (Some "api")];
                out := [{| site := SHandleError;
                           text := handleError_text plain transport_error |}] |})
  /\ run (resolve plain now_lookup_down (Some "api"))
     = (Throw transport_error,
        {| calls := [CList (Some "api"); CFind (Some "api")]; out := [] |})
  /\ tier1_empty now_lookup_down (Some "api")
  /\ fst (run (list_or_exit plain (globals_of (Some "api") false)
                 now_lookup_down some_clock some_sh false)) = Exit 1.
Proof.
  assert (He : tier1_empty now_lookup_down (Some "api")).
  { exists (Some []). split; reflexivity. }
  destruct (C1_fallback_only_after_empty_success plain now_down (Some "api"))
    as (_ & _ & _ & _ & H1 & _).
  destruct (C1_fallback_only_after_empty_success plain now_lookup_down (Some "api"))
    as (Ha & _ & _ & _ & _ & H2 & _ & _ & H3).
  split; [exact (H1 transport_error eq_refl)|].
  split; [exact (H2 transport_error He eq_refl)|].
  split; [exact (proj2 (Ha (CFind (Some "api")) eq_refl))|].
  apply (H3 (globals_of (Some "api") false) some_clock some_sh false eq_refl eq_refl).
  intros x w. rewrite (H2 transport_error He eq_refl). discriminate.
Defined.

(* ------------------------------------------------------------------ *)
(** ** The usage error and the help *)

(** C5.  With [--all] and no application ([app] undefined or empty), [list]
    writes the usage message and terminates the process with status 1
    without any call on the client; so does the whole command when the help
    is not asked for and the credentials of the provider are present. *)
Theorem C5_expansion_without_target_is_rejected
    (P : Packages) (clock : Clock) (now : Now) :
  (forall g s inc,
     all (g_argv g) = true -> truthy_string (g_app g) = false ->
     run (list_or_exit P g now clock s inc)
     = (Exit 1, {| calls := [];
                   out := [{| site := SUsage; text := usage_text |}] |})) /\
  (forall ctx c,
     let a := mri P (skipn 2 (argv ctx)) in
     all a = true ->
     truthy_string (nth_error (skipn 1 (underscore a)) 0) = false ->
     help a = false ->
     find (fun item => provider item =? "sh") (credentials (authConfig ctx))
     = Some c ->
     run (module_exports P clock now ctx)
     = (Exit 1, {| calls := [];
                   out := [{| site := SUsage; text := usage_text |}] |})).
Proof.
  assert (Hl : forall g s inc,
     all (g_argv g) = true -> truthy_string (g_app g) = false ->
     run (list_or_exit P g now clock s inc)
     = (Exit 1, {| calls := [];
                   out := [{| site := SUsage; text := usage_text |}] |})).
  { intros g s inc Hall Happ.
    unfold run, list_or_exit, list_command, try_catch, bind.
    rewrite Hall, Happ. reflexivity. }
  split; [exact Hl|].
  intros ctx c a Hall Happ Hhelp Hc.
  unfold run, module_exports, main, try_catch, bind.
  fold a. rewrite Hhelp. cbn [help underscore debug all].
  assert (Hs : strict_eq "help" (nth_error (skipn 1 (underscore a)) 0) = false).
  { destruct (nth_error (skipn 1 (underscore a)) 0) as [x|]; [|reflexivity].
    simpl in *. destruct x; [reflexivity|discriminate]. }
  rewrite Hs, Hc. change (false || false) with false.
  unfold ret at 1. cbv beta iota.
  specialize (Hl {| g_app := nth_error (skipn 1 (underscore a)) 0;
                    g_argv := {| underscore := skipn 1 (underscore a);
                                 help := false; debug := debug a; all := all a |};
                    g_debug := debug a; g_apiUrl := apiUrl ctx |}
                 (sh (config ctx)) (includeScheme (config ctx)) Hall Happ).
  unfold run in Hl. rewrite Hl. reflexivity.
Qed.

Lemma C5_witness :
  run (list_or_exit plain (globals_of None true) now_down some_clock some_sh false)
  = (Exit 1, {| calls := [];
                out := [{| site := SUsage; text := usage_text |}] |})
  /\ run (module_exports plain some_clock now_down (ctx_of ["ls"; "--all"]))
     = (Exit 1, {| calls := [];
                   out := [{| site := SUsage; text := usage_text |}] |}).
Proof.
  destruct (C5_expansion_without_target_is_rejected plain some_clock now_down)
    as (H1 & H2).
  split.
  - exact (H1 (globals_of None true) some_sh false eq_refl eq_refl).
  - exact (H2 (ctx_of ["ls"; "--all"]) {| provider := "sh"; token := "t0k" |}
              eq_refl eq_refl eq_refl eq_refl).
Defined.

(** C10.  When the positional argument after the subcommand is the string
    [help], the command writes the usage text and terminates with status 0,
    without any call on the client: neither the listing nor any other
    resolution step is reached. *)
Theorem C10_help_as_positional_argument
    (P : Packages) (clock : Clock) (now : Now) (ctx : Ctx) :
  nth_error (skipn 1 (underscore (mri P (skipn 2 (argv ctx))))) 0 = Some "help" ->
  run (module_exports P clock now ctx)
  = (Exit 0, {| calls := [];
                out := [{| site := SHelp; text := help_text P |}] |}).
Proof.
  intros Happ.
  unfold run, module_exports, main, try_catch, bind.
  cbn [help underscore debug all].
  rewrite Happ. simpl strict_eq. rewrite orb_true_r. reflexivity.
Qed.

Lemma C10_witness :
  run (module_exports plain some_clock now_down (ctx_of ["ls"; "help"]))
  = (Exit 0, {| calls := [];
                out := [{| site := SHelp; text := help_text plain |}] |}).
Proof.
  apply (C10_help_as_positional_argument plain some_clock now_down
           (ctx_of ["ls"; "help"])).
  reflexivity.
Defined.

(* ------------------------------------------------------------------ *)
(** ** The resolver: an omitted target *)

(** With no target and nothing deployed, the lookup of the undefined target
    and the fetch of the alias table are both made. *)
Lemma C4_counterexample :
  now_list now_nothing None = Resolved (Some []) /\
  calls (snd (run (resolve plain now_nothing None)))
  = [CList None; CFind None; CAliases].
Proof. split; reflexivity. Qed.

(** C4, as the code has it.  With the target omitted, the listing is the
    only call when it gives at least one deployment, and its result is the
    result.  When it gives none, the lookup is attempted, with the undefined
    target; and when that finds nothing the alias table is fetched. *)
Theorem C4_omitted_target (P : Packages) (now : Now) :
  let r := run (resolve P now None) in
  (forall ds, now_list now None = Resolved (Some ds) -> ds <> [] ->
     r = (Ret (Some ds), {| calls := [CList None]; out := [] |})) /\
  (forall d, now_list now None = Resolved d -> is_empty d = true ->
     nth_error (calls (snd r)) 1 = Some (CFind None)) /\
  (forall d, now_list now None = Resolved d -> is_empty d = true ->
     findDeployment now None = Resolved None ->
     nth_error (calls (snd r)) 2 = Some CAliases).
Proof.
  cbv zeta. repeat match goal with |- _ /\ _ => split end.
  - intros ds H1 Hne. run_resolve. rewrite H1. simpl.
    destruct ds as [|d ds]; [congruence|]. reflexivity.
  - intros d H1 Hd. run_resolve. rewrite H1. simpl. rewrite Hd.
    destruct (findDeployment now None) as [[m|]|e]; simpl; try reflexivity.
    rewrite Hd.
    destruct (listAliases now) as [al|e]; simpl; try reflexivity.
    destruct (find _ al) as [item|]; simpl; try reflexivity.
    destruct (findDeployment now (Some (deploymentId item))) as [[m|]|e];
      reflexivity.
  - intros d H1 Hd H2. run_resolve. rewrite H1. simpl. rewrite Hd, H2. simpl.
    rewrite Hd.
    destruct (listAliases now) as [al|e]; simpl; try reflexivity.
    destruct (find _ al) as [item|]; simpl; try reflexivity.
    destruct (findDeployment now (Some (deploymentId item))) as [[m|]|e];
      reflexivity.
Qed.

Lemma C4_witness :
  run (resolve plain
         {| now_list := fun _ => Resolved (Some [dep_live]);
            findDeployment := fun _ => Resolved None;
            listAliases := Resolved [];
            listInstances := fun _ => Resolved [] |} None)
  = (Ret (Some [dep_live]), {| calls := [CList None]; out := [] |})
  /\ nth_error (calls (snd (run (resolve plain now_nothing None)))) 1
     = Some (CFind None)
  /\ nth_error (calls (snd (run (resolve plain now_nothing None)))) 2
     = Some CAliases.
Proof.
  split.
  - apply (C4_omitted_target plain) with (ds := [dep_live]);
      [reflexivity | discriminate].
  - destruct (C4_omitted_target plain now_nothing) as (_ & H2 & H3).
    split.
    + exact (H2 (Some []) eq_refl eq_refl).
    + exact (H3 (Some []) eq_refl eq_refl eq_refl).
Defined.

(* ------------------------------------------------------------------ *)
(** ** The resolver: alias indirection *)

(** [find] takes the first entry that matches. *)
Lemma alias_for_first (app : option string) (before after : list Alias)
    (item : Alias) :
  (forall e, In e before -> alias_matches app e = false) ->
  alias_matches app item = true ->
  alias_for app (before ++ item :: after)%list = Some item.
Proof.
  unfold alias_for, alias_matches.
  induction before as [|b before IH]; intros Hb Hi; simpl.
  - now rewrite Hi.
  - rewrite (Hb b (or_introl eq_refl)). apply IH; [|exact Hi].
    intros e He. apply Hb. now right.
Qed.

(** The target names two entries of the alias table; the deployment of the
    second exists, and the resolution, which looks up the first only, is
    empty. *)
Lemma C7_counterexample :
  now_list now_two_aliases (Some "foo.now.sh") = Resolved (Some []) /\
  findDeployment now_two_aliases (Some "foo.now.sh") = Resolved None /\
  listAliases now_two_aliases = Resolved [alias_stale; alias_live] /\
  alias alias_live = "foo.now.sh" /\
  findDeployment now_two_aliases (Some (deploymentId alias_live))
  = Resolved (Some dep_live) /\
  run (resolve plain now_two_aliases (Some "foo.now.sh"))
  = (Ret (Some []),
     {| calls := [CList (Some "foo.now.sh"); CFind (Some "foo.now.sh");
                  CAliases; CFind (Some "d1")];
        out := [] |}).
Proof. repeat split; reflexivity. Qed.

(** C7, as the code has it.  When tiers 1 and 2 give nothing and the first
    entry of the alias table, in the order of the table, whose [uid] or
    [alias] equals the target has a [deploymentId] whose lookup finds a
    deployment, the resolution is the one-element sequence of that
    deployment. *)
Theorem C7_first_matching_alias (P : Packages) (now : Now)
    (app : option string) (before after : list Alias) (item : Alias)
    (m : Deployment) :
  tier1_empty now app ->
  findDeployment now app = Resolved None ->
  listAliases now = Resolved (before ++ item :: after)%list ->
  (forall e, In e before -> alias_matches app e = false) ->
  alias_matches app item = true ->
  findDeployment now (Some (deploymentId item)) = Resolved (Some m) ->
  run (resolve P now app)
  = (Ret (Some [m]),
     {| calls := [CList app; CFind app; CAliases;
                  CFind (Some (deploymentId item))];
        out := [] |}).
Proof.
  intros (d & H1 & Hd) H2 H3 Hb Hi H4.
  pose proof (alias_for_first app before after item Hb Hi) as Hf.
  unfold alias_for in Hf.
  run_resolve. rewrite H1. simpl. rewrite Hd, H2. simpl.
  rewrite Hd, H3. simpl. rewrite Hf, H4. reflexivity.
Qed.

Lemma C7_witness :
  run (resolve plain now_one_alias (Some "foo.now.sh"))
  = (Ret (Some [dep_live]),
     {| calls := [CList (Some "foo.now.sh"); CFind (Some "foo.now.sh");
                  CAliases; CFind (Some "d2")];
        out := [] |}).
Proof.
  apply (C7_first_matching_alias plain now_one_alias (Some "foo.now.sh")
           [] [] alias_live dep_live).
  - exists (Some []). split; reflexivity.
  - reflexivity.
  - reflexivity.
  - intros e [].
  - reflexivity.
  - reflexivity.
Defined.

(* ------------------------------------------------------------------ *)
(** ** Nothing found *)

(** C6.  When the listing is an empty array, the lookup of the target finds
    nothing and the alias table holds no entry for the target, or one whose
    deployment is not found, the command returns normally, and what it
    writes is the summary line for 0 deployments and the blank line after
    it: no hint, no group.  No instance is fetched.  (The sort of no group
    gives no group.) *)
Theorem C6_nothing_found_is_reported (P : Packages) (g : Globals) (now : Now)
    (clock : Clock) (s : Sh) (inc : bool) (aliases : list Alias) :
  sort P [] = [] ->
  all (g_argv g) && negb (truthy_string (g_app g)) = false ->
  now_list now (g_app g) = Resolved (Some []) ->
  findDeployment now (g_app g) = Resolved None ->
  listAliases now = Resolved aliases ->
  (forall item, alias_for (g_app g) aliases = Some item ->
     findDeployment now (Some (deploymentId item)) = Resolved None) ->
  run (list_or_exit P g now clock s inc)
  = (Ret tt,
     {| calls := [CList (g_app g); CFind (g_app g); CAliases]
                 ++ match alias_for (g_app g) aliases with
                    | Some item => [CFind (Some (deploymentId item))]
                    | None => []
                    end
                 ++ [CClose];
        out := [{| site := SSummary;
                   text := "> " ++ plural P "deployment" 0 true
                           ++ " found under "
                           ++ chalk_bold P (to_string (scope_of s)) ++ " "
                           ++ chalk_grey P ("[" ++ ms P (timeNow clock - start clock)
                                            ++ "]") |};
                {| site := SBlank; text := "" |}] |}).
Proof.
  intros Hsort Hg H1 H2 H3 H4.
  assert (Hr : resolve P now (g_app g) empty_world
     = (Ret (Some []),
        {| calls := [CList (g_app g); CFind (g_app g); CAliases]
                    ++ match alias_for (g_app g) aliases with
                       | Some item => [CFind (Some (deploymentId item))]
                       | None => []
                       end;
           out := [] |})).
  { unfold resolve, bind, try_catch, await, ret, empty_world. simpl.
    rewrite H1. simpl. rewrite H2. simpl. rewrite H3. simpl.
    destruct (alias_for (g_app g) aliases) as [item|] eqn:Hf.
    - rewrite (H4 item eq_refl). reflexivity.
    - reflexivity. }
  unfold run, list_or_exit, list_command, try_catch.
  rewrite Hg.
  rewrite (bind_ret (ret tt) _ empty_world empty_world tt eq_refl).
  rewrite (bind_ret _ _ _ _ _ Hr).
  unfold bind, now_close, expand, ret, console_log_all, present, group.
  destruct (alias_for (g_app g) aliases) as [item|];
    destruct (all (g_argv g)); simpl; rewrite Hsort; reflexivity.
Qed.

Lemma C6_witness :
  run (list_or_exit plain (globals_of (Some "nope") false) now_nothing
         some_clock some_sh false)
  = (Ret tt,
     {| calls := [CList (Some "nope"); CFind (Some "nope"); CAliases; CClose];
        out := [{| site := SSummary;
                   text := "> 0 deployments found under jo [5000ms]" |};
                {| site := SBlank; text := "" |}] |}).
Proof.
  apply (C6_nothing_found_is_reported plain (globals_of (Some "nope") false)
           now_nothing some_clock some_sh false []).
  - reflexivity.
  - reflexivity.
  - reflexivity.
  - reflexivity.
  - reflexivity.
  - intros item H. discriminate H.
Defined.

(** The listing may also resolve to no array at all, which line 119 takes
    for empty; when the two other tiers find nothing either, the loop of
    line 152 (or the [map] of line 146) throws, and the command ends with
    the diagnostic and status 1. *)
Lemma no_array_is_an_error (P : Packages) (g : Globals) (now : Now)
    (clock : Clock) (s : Sh) (inc : bool) :
  all (g_argv g) && negb (truthy_string (g_app g)) = false ->
  now_list now (g_app g) = Resolved None ->
  findDeployment now (g_app g) = Resolved None ->
  listAliases now = Resolved [] ->
  exists e,
    run (list_or_exit P g now clock s inc)
    = (Exit 1, {| calls := [CList (g_app g); CFind (g_app g); CAliases; CClose];
                  out := [unknown_error_line P e] |}).
Proof.
  intros Hg H1 H2 H3.
  unfold run, list_or_exit, list_command, try_catch.
  rewrite Hg.
  rewrite (bind_ret (ret tt) _ empty_world empty_world tt eq_refl).
  assert (Hr : resolve P now (g_app g) empty_world
               = (Ret None, {| calls := [CList (g_app g); CFind (g_app g);
                                         CAliases];
                               out := [] |})).
  { run_resolve. rewrite H1. simpl. rewrite H2. simpl. rewrite H3.
    reflexivity. }
  rewrite (bind_ret _ _ _ _ _ Hr).
  unfold bind, now_close, throw, ret, console_log_all, process_exit.
  destruct (all (g_argv g)); simpl; eexists; reflexivity.
Qed.

(* ------------------------------------------------------------------ *)
(** ** Instance expansion *)

Lemma settle_all_rejected (now : Now) (ds : list Deployment) (d : Deployment)
    (e : Error) :
  In d ds -> listInstances now (uid d) = Rejected e ->
  exists d' e', In d' ds /\ listInstances now (uid d') = Rejected e' /\
                settle_all now ds = inl e'.
Proof.
  induction ds as [|a ds IH]; intros Hin He; [destruct Hin|].
  simpl. destruct (listInstances now (uid a)) as [l|e0] eqn:Ha.
  - destruct Hin as [->|Hin]; [congruence|].
    destruct (IH Hin He) as (d' & e' & Hd' & He' & Hs).
    exists d', e'. rewrite Hs. repeat split; [now right|exact He'].
  - exists a, e0. repeat split; [now left|exact Ha].
Qed.


(** The fetch for the first deployment is rejected, the fetch for the
    second is not; both are issued, and the command ends with the
    diagnostic alone and status 1: no summary, no group. *)
Lemma C2_counterexample :
  listInstances now_one_fetch_fails "d1" = Rejected transport_error /\
  listInstances now_one_fetch_fails "d2" = Resolved [some_instance] /\
  run (list_or_exit plain (globals_of (Some "api") true) now_one_fetch_fails
         some_clock some_sh false)
  = (Exit 1,
     {| calls := [CList (Some "api"); CClose; CInstances "d1"; CInstances "d2"];
        out := [unknown_error_line plain transport_error] |}).
Proof. repeat split; reflexivity. Qed.

(** C2, as the code has it.  When expansion is requested, one fetch per
    resolved deployment is issued, in their order, whatever the replies; if
    the fetch of some deployment is rejected the command ends there: it
    writes the diagnostic of a rejected fetch and nothing else, and the
    process exits with status 1. *)
Theorem C2_rejected_fetch_aborts_the_command (P : Packages) (g : Globals)
    (now : Now) (clock : Clock) (s : Sh) (inc : bool)
    (ds : list Deployment) (w : World) (d : Deployment) (e : Error) :
  all (g_argv g) = true ->
  truthy_string (g_app g) = true ->
  run (resolve P now (g_app g)) = (Ret (Some ds), w) ->
  In d ds ->
  listInstances now (uid d) = Rejected e ->
  exists d' e',
    In d' ds /\ listInstances now (uid d') = Rejected e' /\
    run (list_or_exit P g now clock s inc)
    = (Exit 1,
       {| calls := calls w ++ CClose :: map (fun d => CInstances (uid d)) ds;
          out := [unknown_error_line P e'] |}).
Proof.
  intros Hall Happ Hr Hin He.
  destruct (settle_all_rejected now ds d e Hin He) as (d' & e' & Hd' & He' & Hs).
  exists d', e'. split; [exact Hd'|]. split; [exact He'|].
  pose proof (resolve_ret_out P now (g_app g) _ _ Hr) as Hout.
  unfold run, list_or_exit, list_command, try_catch in *.
  rewrite Hall, Happ.
  rewrite (bind_ret (ret tt) _ empty_world empty_world tt eq_refl).
  rewrite (bind_ret _ _ _ _ _ Hr).
  unfold bind, now_close, expand, console_log_all, process_exit.
  simpl. rewrite Hs. simpl. rewrite Hout, <- app_assoc. reflexivity.
Qed.

Lemma C2_witness :
  exists d' e',
    In d' [no_scale_dep "d1" "api" "api-abc.now.sh";
           no_scale_dep "d2" "api" "api-def.now.sh"] /\
    listInstances now_one_fetch_fails (uid d') = Rejected e' /\
    run (list_or_exit plain (globals_of (Some "api") true) now_one_fetch_fails
           some_clock some_sh false)
    = (Exit 1,
       {| calls := [CList (Some "api"); CClose; CInstances "d1"; CInstances "d2"];
          out := [unknown_error_line plain e'] |}).
Proof.
  apply (C2_rejected_fetch_aborts_the_command plain
           (globals_of (Some "api") true) now_one_fetch_fails some_clock
           some_sh false
           [no_scale_dep "d1" "api" "api-abc.now.sh";
            no_scale_dep "d2" "api" "api-def.now.sh"]
           {| calls := [CList (Some "api")]; out := [] |}
           (no_scale_dep "d1" "api" "api-abc.now.sh") transport_error).
  - reflexivity.
  - reflexivity.
  - reflexivity.
  - simpl. left. reflexivity.
  - reflexivity.
Defined.

(* ------------------------------------------------------------------ *)
(** ** The expansion hint *)

(** [app.find] runs over the entry [[name, deps]]: neither the name nor the
    array has a [scale], and nothing is found. *)
Lemma entry_find_scaled_out (app : string * list Deployment) :
  find scaled_out (entry app) = None.
Proof. reflexivity. Qed.

(** What the loop of lines 174-183 computes: some group has more than 5
    members. *)
Lemma shouldShowAllInfo_spec (apps : AppMap) :
  shouldShowAllInfo apps
  = existsb (fun app => (5 <? List.length (snd app))%nat) apps.
Proof.
  induction apps as [|app apps IH]; [reflexivity|].
  simpl. rewrite IH.
  destruct (5 <? List.length (snd app))%nat; reflexivity.
Qed.

(** C3.  One deployment with [scale.current] 3, expansion not requested:
    the hint is due, since a deployment runs on more than one instance, and
    the command writes the summary, the blank line and the group, without
    the hint. *)
Theorem C3_scale_does_not_trigger_the_hint :
  (exists sc, scale dep_scaled = Some sc /\ (current sc > 1)%Z) /\
  all (g_argv (globals_of None false)) = false /\
  fst (run (list_or_exit plain (globals_of None false) now_scaled
              some_clock some_sh false)) = Ret tt /\
  sites (snd (run (list_or_exit plain (globals_of None false) now_scaled
                     some_clock some_sh false)))
  = [SSummary; SBlank; SGroupHeader; SColumns; SRow; SGroupEnd].
Proof.
  split; [exists {| current := 3 |}; split; [reflexivity|simpl; lia]|].
  repeat split; reflexivity.
Qed.

(* ------------------------------------------------------------------ *)
(** ** The sections of the report *)

Lemma filter_nothing {A} (f : A -> bool) (l : list A) :
  (forall x, In x l -> f x = false) -> filter f l = [].
Proof.
  induction l as [|a l IH]; intros H; [reflexivity|].
  simpl. rewrite (H a (or_introl eq_refl)). apply IH.
  intros x Hx. apply H. now right.
Qed.

(** Beneath a row there are instance lines and their closing blank line
    only. *)
Lemma instance_lines_sites (P : Packages) (urlL : nat) (dep : Deployment)
    (l : Line) :
  In l (instance_lines P urlL dep) ->
  site l = SInstance \/ site l = SInstanceEnd.
Proof.
  unfold instance_lines.
  destruct (instances dep) as [[|i l0]|]; intros H;
    [destruct H| |destruct H].
  apply in_app_or in H. destruct H as [H|[<-|[]]].
  - apply in_map_iff in H. destruct H as (x & <- & _). now left.
  - now right.
Qed.

(** A deployment gives one row, then its instance lines. *)
Lemma row_lines_shape (P : Packages) (urlL : nat) (inc : bool) (clock : Clock)
    (dep : Deployment) :
  exists t, row_lines P urlL inc clock dep
            = {| site := SRow; text := t |} :: instance_lines P urlL dep.
Proof.
  unfold row_lines.
  destruct (includes "ERROR" _); [eexists; reflexivity|].
  destruct (_ =? "FROZEN"); eexists; reflexivity.
Qed.

Lemma rows_app (l1 l2 : list Line) : rows (l1 ++ l2) = rows l1 + rows l2.
Proof. unfold rows. now rewrite filter_app, length_app. Qed.

Lemma rows_row_lines (P : Packages) (urlL : nat) (inc : bool) (clock : Clock)
    (dep : Deployment) :
  rows (row_lines P urlL inc clock dep) = 1.
Proof.
  destruct (row_lines_shape P urlL inc clock dep) as (t & ->).
  unfold rows. simpl. rewrite filter_nothing; [reflexivity|].
  intros x Hx. destruct (instance_lines_sites P urlL dep x Hx) as [-> | ->];
    reflexivity.
Qed.

Lemma rows_flat_map (P : Packages) (urlL : nat) (inc : bool) (clock : Clock)
    (deps : list Deployment) :
  rows (flat_map (row_lines P urlL inc clock) deps) = List.length deps.
Proof.
  induction deps as [|d deps IH]; [reflexivity|].
  simpl. now rewrite rows_app, rows_row_lines, IH.
Qed.

(** C8.  The section of a group of [n] deployments holds [k] deployment
    rows, and starts with the header written from [k] and [n], where [k] is
    [n] when expansion is requested and the smaller of [n] and 5 when it is
    not.  A group of 7 without expansion: 5 rows, "(5 of 7 total)". *)
Theorem C8_rows_and_header_of_a_group (P : Packages) (expand_all : bool)
    (urlL : nat) (inc : bool) (clock : Clock) (name : string)
    (deps : list Deployment) :
  let n := List.length deps in
  let k := if expand_all then n else Nat.min n 5 in
  let ls := render_group P expand_all urlL inc clock (name, deps) in
  rows ls = k /\
  nth_error ls 0
  = Some {| site := SGroupHeader;
            text := chalk_bold P name ++ " "
                    ++ chalk_gray P ("(" ++ string_of_nat k ++ " of "
                                     ++ string_of_nat n ++ " total)") |} /\
  (n = 7 -> expand_all = false ->
   rows ls = 5 /\
   nth_error ls 0
   = Some {| site := SGroupHeader;
             text := chalk_bold P name ++ " "
                     ++ chalk_gray P "(5 of 7 total)" |}).
Proof.
  cbv zeta.
  assert (Hk : List.length (if expand_all then deps else firstn 5 deps)
               = if expand_all then List.length deps
                 else Nat.min (List.length deps) 5).
  { destruct expand_all; [reflexivity|].
    rewrite length_firstn. apply Nat.min_comm. }
  assert (Hrows : rows (render_group P expand_all urlL inc clock (name, deps))
                  = if expand_all then List.length deps
                    else Nat.min (List.length deps) 5).
  { unfold render_group.
    change (rows ([header_line P name
                     (List.length (if expand_all then deps else firstn 5 deps))
                     (List.length deps); columns_line P urlL]
                  ++ flat_map (row_lines P urlL inc clock)
                       (if expand_all then deps else firstn 5 deps)
                  ++ [{| site := SGroupEnd; text := "" |}])
            = if expand_all then List.length deps
              else Nat.min (List.length deps) 5).
    rewrite !rows_app, rows_flat_map, Hk. unfold rows. simpl. lia. }
  assert (Hhead : nth_error (render_group P expand_all urlL inc clock (name, deps)) 0
                  = Some (header_line P name
                            (if expand_all then List.length deps
                             else Nat.min (List.length deps) 5)
                            (List.length deps))).
  { unfold render_group. rewrite Hk. reflexivity. }
  split; [exact Hrows|]. split; [exact Hhead|].
  intros Hn ->. rewrite Hrows, Hhead, Hn. split; reflexivity.
Qed.

Lemma C8_witness :
  let deps := map (fun u => no_scale_dep u "api" "api.x.co")
                  ["d1"; "d2"; "d3"; "d4"; "d5"; "d6"; "d7"] in
  rows (render_group plain false 13 false some_clock ("api", deps)) = 5 /\
  nth_error (render_group plain false 13 false some_clock ("api", deps)) 0
  = Some {| site := SGroupHeader; text := "api (5 of 7 total)" |}.
Proof.
  cbv zeta.
  apply (C8_rows_and_header_of_a_group plain false 13 false some_clock "api"
           (map (fun u => no_scale_dep u "api" "api.x.co")
                ["d1"; "d2"; "d3"; "d4"; "d5"; "d6"; "d7"]));
    reflexivity.
Defined.

(** No line of a section is the hint. *)
Lemma render_group_no_hint (P : Packages) (expand_all : bool) (urlL : nat)
    (inc : bool) (clock : Clock) (g : string * list Deployment) (l : Line) :
  In l (render_group P expand_all urlL inc clock g) -> site l <> SHint.
Proof.
  destruct g as [name deps]. unfold render_group.
  intros [<-|[<-|H]]; try discriminate.
  apply in_app_or in H. destruct H as [H|[<-|[]]]; try discriminate.
  apply in_flat_map in H. destruct H as (d & _ & H).
  destruct (row_lines_shape P urlL inc clock d) as (t & Ht).
  rewrite Ht in H. destruct H as [<-|H]; [discriminate|].
  destruct (instance_lines_sites P urlL d l H) as [-> | ->]; discriminate.
Qed.

(** The hint as the code decides it: it is written when expansion was not
    requested and some group has more than 5 members, and only then; the
    [scale] of the deployments has no part in it.  When written, it is the
    second line, between the summary and the blank line that precedes the
    groups. *)
Lemma hint_written_iff (P : Packages) (expand_all : bool) (s : Sh)
    (inc : bool) (clock : Clock) (ds : list Deployment) (apps sorted : AppMap) :
  let ls := present P expand_all s inc clock ds apps sorted in
  (In SHint (map site ls) <->
   expand_all = false /\
   exists app, In app apps /\ 5 < List.length (snd app)) /\
  (In SHint (map site ls) ->
   exists rest, ls = summary_line P s clock ds :: hint_line P :: rest /\
                ~ In SHint (map site rest)).
Proof.
  cbv zeta. unfold present. rewrite shouldShowAllInfo_spec.
  assert (Hg : ~ In SHint
                 (map site ({| site := SBlank; text := "" |}
                            :: flat_map (render_group P expand_all
                                           (urlLength ds) inc clock) sorted))).
  { intros H. apply in_map_iff in H. destruct H as (l & Hs & [<-|H]);
      [discriminate|].
    apply in_flat_map in H. destruct H as (g & _ & H).
    exact (render_group_no_hint _ _ _ _ _ _ _ H Hs). }
  destruct (negb expand_all
            && existsb (fun app => (5 <? List.length (snd app))%nat) apps)
    eqn:Hc.
  - apply andb_true_iff in Hc. destruct Hc as (Ha & He).
    apply negb_true_iff in Ha. apply existsb_exists in He.
    destruct He as (app & Hin & Hlt). apply Nat.ltb_lt in Hlt.
    split.
    + split; [|intros _; simpl; auto].
      intros _. split; [exact Ha|]. exists app. auto.
    + intros _. eexists. split; [reflexivity|exact Hg].
  - assert (Hno : ~ (expand_all = false /\
                     exists app, In app apps /\ 5 < List.length (snd app))).
    { intros (Ha & app & Hin & Hlt).
      rewrite Ha in Hc. simpl in Hc.
      assert (existsb (fun app => (5 <? List.length (snd app))%nat) apps = true)
        as He; [|congruence].
      apply existsb_exists. exists app. split; [exact Hin|].
      now apply Nat.ltb_lt. }
    assert (Hnone : ~ In SHint
                      (map site (summary_line P s clock ds
                                 :: [] ++ {| site := SBlank; text := "" |}
                                 :: flat_map (render_group P expand_all
                                                (urlLength ds) inc clock) sorted))).
    { simpl. intros [H|H]; [discriminate|]. exact (Hg H). }
    split; [split|]; intros H; try contradiction.
Qed.

(* ------------------------------------------------------------------ *)
(** ** The width of the url column *)

Lemma Map_get_In (m : AppMap) (k : string) (v : list Deployment) :
  Map_get m k = Some v -> In (k, v) m.
Proof.
  induction m as [|[k' v'] m IH]; simpl; [discriminate|].
  destruct (k' =? k) eqn:Hk.
  - apply String.eqb_eq in Hk. intros H. injection H as ->. subst. now left.
  - intros H. right. now apply IH.
Qed.

Lemma Map_set_In (m : AppMap) (k : string) (v : list Deployment)
    (e : string * list Deployment) :
  In e (Map_set m k v) -> e = (k, v) \/ In e m.
Proof.
  induction m as [|[k' v'] m IH]; simpl.
  - intros [<-|[]]. now left.
  - destruct (k' =? k).
    + intros [<-|H]; [now left|right; now right].
    + intros [<-|H]; [right; now left|].
      destruct (IH H) as [->|H']; [now left|right; now right].
Qed.

(** The members of the groups built from an array, starting from a [Map],
    are members of the [Map] or elements of the array. *)
Lemma group_fold_members (ds : list Deployment) :
  forall (acc : AppMap) (n : string) (deps : list Deployment) (d : Deployment),
    In (n, deps)
       (fold_left
          (fun apps dep =>
             let deps := match Map_get apps (name dep) with
                         | Some deps => deps
                         | None => []
                         end in
             Map_set apps (name dep) (deps ++ [dep]))
          ds acc) ->
    In d deps ->
    In d ds \/ exists n' deps', In (n', deps') acc /\ In d deps'.
Proof.
  induction ds as [|a ds IH]; intros acc n deps d Hin Hd; simpl in Hin.
  - right. exists n, deps. auto.
  - destruct (IH _ _ _ _ Hin Hd) as [H|(n' & deps' & Hset & Hd')].
    + left. now right.
    + apply Map_set_In in Hset. destruct Hset as [Heq|Hacc].
      * injection Heq as -> ->. apply in_app_or in Hd'.
        destruct Hd' as [Hold|[<-|[]]]; [|left; now left].
        destruct (Map_get acc (name a)) as [old|] eqn:Hget; [|destruct Hold].
        right. exists (name a), old. split; [|exact Hold].
        now apply Map_get_In.
      * right. exists n', deps'. auto.
Qed.

Lemma group_members (ds : list Deployment) (n : string)
    (deps : list Deployment) (d : Deployment) :
  In (n, deps) (group ds) -> In d deps -> In d ds.
Proof.
  intros Hin Hd.
  destruct (group_fold_members ds [] n deps d Hin Hd)
    as [H|(n' & deps' & [] & _)].
  exact H.
Qed.

Lemma fold_max_ge (ds : list Deployment) :
  forall acc,
    acc <= fold_left (fun acc i => Nat.max acc (url_length_of i)) ds acc /\
    forall d, In d ds ->
      url_length_of d
      <= fold_left (fun acc i => Nat.max acc (url_length_of i)) ds acc.
Proof.
  induction ds as [|a ds IH]; intros acc; simpl.
  - split; [lia|intros d []].
  - destruct (IH (Nat.max acc (url_length_of a))) as (H1 & H2).
    split; [lia|].
    intros d [<-|Hd]; [lia|now apply H2].
Qed.

Lemma urlLength_covers (ds : list Deployment) (d : Deployment) :
  In d ds -> url_length_of d + 5 <= urlLength ds.
Proof.
  intros Hd. unfold urlLength.
  pose proof (proj2 (fold_max_ge ds 0) d Hd). lia.
Qed.

(** C9.  One width is computed from the resolved deployments and passed to
    the section of every group; it is at least the length of the url of
    any deployment of any sorted group, first or not, plus 5, and when the
    url is present that is the length of the url string.  (The sort is
    taken to give groups made of deployments of the groups it was given.) *)
Theorem C9_url_column_covers_every_group (P : Packages)
    (ds : list Deployment) :
  sort_keeps_members (sort P) ->
  (forall expand_all s inc clock,
     exists head,
       present P expand_all s inc clock ds (group ds) (sort P (group ds))
       = (head ++ flat_map (render_group P expand_all (urlLength ds) inc clock)
                           (sort P (group ds)))%list) /\
  (forall name deps d,
     In (name, deps) (sort P (group ds)) -> In d deps ->
     url_length_of d + 5 <= urlLength ds /\
     forall u, url d = Some u -> String.length u + 5 <= urlLength ds).
Proof.
  intros Hsort. split.
  - intros expand_all s inc clock. unfold present.
    exists (summary_line P s clock ds
            :: (if negb expand_all && shouldShowAllInfo (group ds)
                then [hint_line P] else [])
            ++ [{| site := SBlank; text := "" |}])%list.
    simpl. rewrite <- app_assoc. reflexivity.
  - intros n deps d Hin Hd.
    destruct (Hsort _ _ _ _ Hin Hd) as (n' & deps' & Hin' & Hd').
    pose proof (urlLength_covers ds d (group_members ds n' deps' d Hin' Hd'))
      as Hle.
    split; [exact Hle|].
    intros u Hu. unfold url_length_of in Hle. now rewrite Hu in Hle.
Qed.

Lemma plain_sort_keeps_members : sort_keeps_members (sort plain).
Proof. intros apps n deps d Hin Hd. exists n, deps. auto. Qed.

Lemma C9_witness :
  let ds := [no_scale_dep "d1" "api" "api.x.co";
             no_scale_dep "d2" "web" "a-much-longer-name.x.co"] in
  String.length "a-much-longer-name.x.co" + 5 <= urlLength ds.
Proof.
  cbv zeta.
  destruct (C9_url_column_covers_every_group plain
              [no_scale_dep "d1" "api" "api.x.co";
               no_scale_dep "d2" "web" "a-much-longer-name.x.co"]
              plain_sort_keeps_members) as (_ & H).
  apply (H "web" [no_scale_dep "d2" "web" "a-much-longer-name.x.co"]
           (no_scale_dep "d2" "web" "a-much-longer-name.x.co")).
  - simpl. right. left. reflexivity.
  - simpl. left. reflexivity.
  - reflexivity.
Defined.

(* ------------------------------------------------------------------ *)
(** ** The resolver: where it stops *)

(** X1.  Whatever the target, a listing with at least one deployment ends
    the resolution: it is the result, and no other call is made. *)
Theorem direct_listing_is_terminal (P : Packages) (now : Now)
    (app : option string) (ds : list Deployment) :
  now_list now app = Resolved (Some ds) ->
  ds <> [] ->
  run (resolve P now app)
  = (Ret (Some ds), {| calls := [CList app]; out := [] |}).
Proof.
  intros H1 Hne. run_resolve. rewrite H1. simpl.
  destruct ds as [|d ds]; [congruence|]. reflexivity.
Qed.

Lemma direct_listing_is_terminal_witness :
  run (resolve plain now_two_apps (Some "api"))
  = (Ret (Some [no_scale_dep "d1" "api" "api-abc.now.sh";
                no_scale_dep "d2" "web" "web-abc.now.sh";
                no_scale_dep "d3" "api" "api-def.now.sh"]),
     {| calls := [CList (Some "api")]; out := [] |}).
Proof.
  apply (direct_listing_is_terminal plain now_two_apps (Some "api"));
    [reflexivity | discriminate].
Defined.

(** X2.  When the listing gives nothing and the lookup of the target finds
    a deployment, the result is that deployment alone, after two calls: the
    alias table is not fetched. *)
Theorem lookup_of_target_gives_one (P : Packages) (now : Now)
    (app : option string) (m : Deployment) :
  tier1_empty now app ->
  findDeployment now app = Resolved (Some m) ->
  run (resolve P now app)
  = (Ret (Some [m]), {| calls := [CList app; CFind app]; out := [] |}).
Proof.
  intros (d & H1 & Hd) H2. run_resolve. rewrite H1. simpl.
  rewrite Hd, H2. reflexivity.
Qed.

Lemma lookup_of_target_gives_one_witness :
  run (resolve plain now_by_id (Some "d2"))
  = (Ret (Some [dep_live]),
     {| calls := [CList (Some "d2"); CFind (Some "d2")]; out := [] |}).
Proof.
  apply (lookup_of_target_gives_one plain now_by_id (Some "d2") dep_live).
  - exists (Some []). split; reflexivity.
  - reflexivity.
Defined.



(* ------------------------------------------------------------------ *)
(** ** The command as a whole *)


(** X4.  When the help is not asked for and no credential is of the
    provider [sh], the command reports the error and exits with status 1
    before the client is used. *)
Theorem missing_credentials_are_reported (P : Packages) (clock : Clock)
    (now : Now) (ctx : Ctx) :
  let a := mri P (skipn 2 (argv ctx)) in
  help a || strict_eq "help" (nth_error (skipn 1 (underscore a)) 0) = false ->
  find (fun item => provider item =? "sh") (credentials (authConfig ctx)) = None ->
  exists e,
    run (module_exports P clock now ctx)
    = (Exit 1, {| calls := [];
                  out := [{| site := SHandleError;
                             text := handleError_text P e |}] |}).
Proof.
  cbv zeta. intros Hh Hc.
  unfold run, module_exports, main, try_catch.
  cbn [help underscore debug all]. rewrite Hh, Hc.
  rewrite (bind_ret (ret tt) _ empty_world empty_world tt eq_refl).
  eexists. reflexivity.
Qed.

Lemma missing_credentials_are_reported_witness :
  exists e,
    run (module_exports plain some_clock now_two_apps
           (ctx_without_credentials ["ls"; "api"]))
    = (Exit 1, {| calls := [];
                  out := [{| site := SHandleError;
                             text := handleError_text plain e |}] |}).
Proof.
  apply (missing_credentials_are_reported plain some_clock now_two_apps
           (ctx_without_credentials ["ls"; "api"]));
    reflexivity.
Defined.

(** X5.  Once the resolution has returned an array, the client is closed,
    once, and only then are the instances fetched: one fetch per resolved
    deployment, in their order, when expansion is requested, and none when
    it is not.  This holds whether or not the fetches succeed. *)
Theorem calls_after_the_resolution (P : Packages) (g : Globals) (now : Now)
    (clock : Clock) (s : Sh) (inc : bool) (ds : list Deployment) (w : World) :
  all (g_argv g) && negb (truthy_string (g_app g)) = false ->
  run (resolve P now (g_app g)) = (Ret (Some ds), w) ->
  calls (snd (run (list_or_exit P g now clock s inc)))
  = (calls w
     ++ CClose :: (if all (g_argv g)
                   then map (fun d => CInstances (uid d)) ds
                   else []))%list.
Proof.
  intros Hg Hr.
  unfold run, list_or_exit, list_command, try_catch in *.
  rewrite Hg.
  rewrite (bind_ret (ret tt) _ empty_world empty_world tt eq_refl).
  rewrite (bind_ret _ _ _ _ _ Hr).
  unfold bind, now_close, expand, ret, console_log_all, process_exit.
  destruct (all (g_argv g)); simpl;
    try destruct (settle_all now ds) as [e|ds']; simpl;
    rewrite <- ?app_assoc; reflexivity.
Qed.

Lemma calls_after_the_resolution_witness :
  calls (snd (run (list_or_exit plain (globals_of (Some "api") true)
                     now_two_apps some_clock some_sh false)))
  = [CList (Some "api"); CClose;
     CInstances "d1"; CInstances "d2"; CInstances "d3"].
Proof.
  apply (calls_after_the_resolution plain (globals_of (Some "api") true)
           now_two_apps some_clock some_sh false
           [no_scale_dep "d1" "api" "api-abc.now.sh";
            no_scale_dep "d2" "web" "web-abc.now.sh";
            no_scale_dep "d3" "api" "api-def.now.sh"]
           {| calls := [CList (Some "api")]; out := [] |});
    reflexivity.
Defined.

(* ------------------------------------------------------------------ *)
(** ** Grouping by application *)

Lemma group_is_fold (ds : list Deployment) :
  group ds = fold_left group_step ds [].
Proof. reflexivity. Qed.

Lemma Map_get_set_same (m : AppMap) (k : string) (v : list Deployment) :
  Map_get (Map_set m k v) k = Some v.
Proof.
  induction m as [|[k' v'] m IH]; simpl.
  - now rewrite String.eqb_refl.
  - destruct (k' =? k) eqn:Hk; simpl.
    + now rewrite String.eqb_refl.
    + now rewrite Hk.
Qed.

Lemma Map_get_set_other (m : AppMap) (k n : string) (v : list Deployment) :
  k <> n -> Map_get (Map_set m k v) n = Map_get m n.
Proof.
  intros Hne. induction m as [|[k' v'] m IH]; simpl.
  - apply String.eqb_neq in Hne. now rewrite Hne.
  - destruct (k' =? k) eqn:Hk; simpl.
    + apply String.eqb_eq in Hk. subst k'.
      apply String.eqb_neq in Hne. now rewrite Hne.
    + destruct (k' =? n); [reflexivity|exact IH].
Qed.

Lemma Map_get_absent (m : AppMap) (n : string) :
  ~ In n (map fst m) -> Map_get m n = None.
Proof.
  induction m as [|[k v] m IH]; simpl; [reflexivity|].
  intros H. destruct (k =? n) eqn:Hk.
  - apply String.eqb_eq in Hk. exfalso. apply H. now left.
  - apply IH. intros Hin. apply H. now right.
Qed.

Lemma In_Map_get (m : AppMap) (n : string) (v : list Deployment) :
  NoDup (map fst m) -> In (n, v) m -> Map_get m n = Some v.
Proof.
  induction m as [|[k v'] m IH]; simpl; intros Hnd Hin; [destruct Hin|].
  inversion Hnd as [|? ? Hk Hnd']; subst.
  destruct Hin as [Heq|Hin].
  - injection Heq as -> ->. now rewrite String.eqb_refl.
  - destruct (k =? n) eqn:Hkn; [|now apply IH].
    apply String.eqb_eq in Hkn. subst k. exfalso. apply Hk.
    change n with (fst (n, v)). now apply in_map.
Qed.

Lemma existsb_eqb_In (n : string) (l : list string) :
  existsb (String.eqb n) l = true <-> In n l.
Proof.
  rewrite existsb_exists. split.
  - intros (x & Hx & He). apply String.eqb_eq in He. now subst.
  - intros H. exists n. split; [exact H|apply String.eqb_refl].
Qed.

Lemma Map_set_keys (m : AppMap) (k : string) (v : list Deployment) :
  map fst (Map_set m k v)
  = if existsb (String.eqb k) (map fst m) then map fst m
    else (map fst m ++ [k])%list.
Proof.
  induction m as [|[k' v'] m IH]; simpl; [reflexivity|].
  rewrite (String.eqb_sym k k').
  destruct (k' =? k) eqn:Hk; simpl.
  - apply String.eqb_eq in Hk. now subst.
  - rewrite IH. destruct (existsb (String.eqb k) (map fst m)); reflexivity.
Qed.

(** [first_seen] looks at [seen] as a set. *)
Lemma first_seen_ext (names : list string) :
  forall s1 s2,
    (forall x, In x s1 <-> In x s2) ->
    first_seen s1 names = first_seen s2 names.
Proof.
  induction names as [|n names IH]; intros s1 s2 H; simpl; [reflexivity|].
  assert (He : existsb (String.eqb n) s1 = existsb (String.eqb n) s2).
  { apply eq_true_iff_eq. rewrite !existsb_eqb_In. apply H. }
  rewrite He. destruct (existsb (String.eqb n) s2).
  - now apply IH.
  - f_equal. apply IH. intros x. simpl. rewrite H. reflexivity.
Qed.

Lemma first_seen_fresh (names : list string) :
  forall seen,
    NoDup (first_seen seen names) /\
    forall x, In x (first_seen seen names) -> ~ In x seen.
Proof.
  induction names as [|n names IH]; intros seen; simpl.
  - split; [constructor|intros x []].
  - destruct (existsb (String.eqb n) seen) eqn:He.
    + apply IH.
    + destruct (IH (n :: seen)) as (Hnd & Hfresh). split.
      * constructor; [|exact Hnd].
        intros Hin. apply (Hfresh n Hin). now left.
      * intros x [<-|Hx].
        -- intros Hin. apply existsb_eqb_In in Hin. congruence.
        -- intros Hin. apply (Hfresh x Hx). now right.
Qed.

Lemma group_fold_keys (ds : list Deployment) :
  forall acc,
    map fst (fold_left group_step ds acc)
    = (map fst acc ++ first_seen (map fst acc) (map name ds))%list.
Proof.
  induction ds as [|a ds IH]; intros acc; simpl.
  - now rewrite app_nil_r.
  - rewrite IH. unfold group_step. rewrite Map_set_keys.
    destruct (existsb (String.eqb (name a)) (map fst acc)); [reflexivity|].
    rewrite <- app_assoc. simpl. do 2 f_equal.
    apply first_seen_ext. intros x. rewrite in_app_iff. simpl. tauto.
Qed.

Lemma filter_named_snoc (n : string) (seen : list Deployment) (a : Deployment) :
  filter (named n) (seen ++ [a])
  = (filter (named n) seen ++ (if name a =? n then [a] else []))%list.
Proof. rewrite filter_app. reflexivity. Qed.

Lemma group_fold_lookup (ds : list Deployment) :
  forall acc seen,
    (forall n, Map_get acc n
               = match filter (named n) seen with
                 | [] => None
                 | d :: l => Some (d :: l)
                 end) ->
    forall n, Map_get (fold_left group_step ds acc) n
              = match filter (named n) (seen ++ ds) with
                | [] => None
                | d :: l => Some (d :: l)
                end.
Proof.
  induction ds as [|a ds IH]; intros acc seen Hacc n; simpl.
  - rewrite app_nil_r. apply Hacc.
  - replace (seen ++ a :: ds)%list with ((seen ++ [a]) ++ ds)%list
      by (rewrite <- app_assoc; reflexivity).
    apply IH. clear n. intros n.
    unfold group_step.
    assert (Hold : match Map_get acc (name a) with
                   | Some deps => deps
                   | None => []
                   end = filter (named (name a)) seen).
    { rewrite Hacc. destruct (filter (named (name a)) seen); reflexivity. }
    rewrite Hold, filter_named_snoc.
    destruct (name a =? n) eqn:Hn.
    + apply String.eqb_eq in Hn. subst n. rewrite Map_get_set_same.
      destruct (filter (named (name a)) seen); reflexivity.
    + rewrite Map_get_set_other by (now apply String.eqb_neq).
      rewrite app_nil_r. apply Hacc.
Qed.

Lemma group_keys (ds : list Deployment) :
  map fst (group ds) = first_seen [] (map name ds).
Proof. rewrite group_is_fold. apply (group_fold_keys ds []). Qed.

Lemma group_keys_NoDup (ds : list Deployment) : NoDup (map fst (group ds)).
Proof. rewrite group_keys. apply first_seen_fresh. Qed.

Lemma group_lookup (ds : list Deployment) (n : string) :
  Map_get (group ds) n
  = match filter (named n) ds with
    | [] => None
    | d :: l => Some (d :: l)
    end.
Proof.
  rewrite group_is_fold. apply (group_fold_lookup ds [] []). reflexivity.
Qed.

Lemma group_In (ds : list Deployment) (n : string) (deps : list Deployment) :
  In (n, deps) (group ds) <-> deps <> [] /\ deps = filter (named n) ds.
Proof.
  split.
  - intros Hin. apply (In_Map_get _ _ _ (group_keys_NoDup ds)) in Hin.
    rewrite group_lookup in Hin.
    destruct (filter (named n) ds); [discriminate|].
    injection Hin as <-. split; [discriminate|reflexivity].
  - intros (Hne & ->). apply Map_get_In. rewrite group_lookup.
    destruct (filter (named n) ds); [congruence|reflexivity].
Qed.

(** X6.  The groups are keyed by the names of the deployments, each name
    once, in the order of first appearance in the listing; the group of a
    name holds the deployments of that name, all of them and in the order
    of the listing; and no group is empty. *)
Theorem grouping_by_name (ds : list Deployment) :
  map fst (group ds) = first_seen [] (map name ds) /\
  NoDup (map fst (group ds)) /\
  (forall n, Map_get (group ds) n
             = match filter (named n) ds with
               | [] => None
               | d :: l => Some (d :: l)
               end) /\
  (forall n deps,
     In (n, deps) (group ds) <-> deps <> [] /\ deps = filter (named n) ds).
Proof.
  split; [apply group_keys|].
  split; [apply group_keys_NoDup|].
  split; [apply group_lookup|apply group_In].
Qed.

Lemma grouping_by_name_witness :
  let ds := [no_scale_dep "d1" "api" "api-abc.now.sh";
             no_scale_dep "d2" "web" "web-abc.now.sh";
             no_scale_dep "d3" "api" "api-def.now.sh"] in
  In ("api", [no_scale_dep "d1" "api" "api-abc.now.sh";
              no_scale_dep "d3" "api" "api-def.now.sh"]) (group ds)
  /\ map fst (group ds) = ["api"; "web"].
Proof.
  cbv zeta.
  destruct (grouping_by_name [no_scale_dep "d1" "api" "api-abc.now.sh";
                              no_scale_dep "d2" "web" "web-abc.now.sh";
                              no_scale_dep "d3" "api" "api-def.now.sh"])
    as (Hk & _ & _ & Hin).
  split.
  - apply Hin. split; [discriminate|reflexivity].
  - rewrite Hk. reflexivity.
Defined.

Lemma group_step_members (acc : AppMap) (a : Deployment) :
  Permutation (flat_map snd (group_step acc a)) (flat_map snd acc ++ [a]).
Proof.
  unfold group_step. induction acc as [|[k v] acc IH]; simpl.
  - apply Permutation_refl.
  - destruct (k =? name a) eqn:Hk; simpl.
    + rewrite <- !app_assoc. apply Permutation_app_head.
      apply Permutation_app_comm.
    + rewrite <- app_assoc. apply Permutation_app_head. exact IH.
Qed.

Lemma group_fold_permutation (ds : list Deployment) :
  forall acc,
    Permutation (flat_map snd (fold_left group_step ds acc))
                (flat_map snd acc ++ ds).
Proof.
  induction ds as [|a ds IH]; intros acc; simpl.
  - rewrite app_nil_r. apply Permutation_refl.
  - eapply Permutation_trans; [apply IH|].
    replace (flat_map snd acc ++ a :: ds)%list
      with ((flat_map snd acc ++ [a]) ++ ds)%list
      by (rewrite <- app_assoc; reflexivity).
    apply Permutation_app_tail. apply group_step_members.
Qed.

(** X7.  Grouping neither loses nor repeats a deployment: the members of
    the groups, taken together, are the deployments of the listing, and the
    sizes of the groups add up to the count of the summary line. *)
Theorem grouping_keeps_every_deployment (ds : list Deployment) :
  Permutation (flat_map snd (group ds)) ds /\
  list_sum (map (fun g => List.length (snd g)) (group ds)) = List.length ds.
Proof.
  assert (Hp : Permutation (flat_map snd (group ds)) ds).
  { rewrite group_is_fold. apply (group_fold_permutation ds []). }
  split; [exact Hp|].
  rewrite <- (Permutation_length Hp).
  generalize (group ds). intros m.
  induction m as [|[k v] m IH]; simpl; [reflexivity|].
  rewrite length_app, IH. reflexivity.
Qed.

Lemma group_permutation (ds : list Deployment) :
  Permutation (flat_map snd (group ds)) ds.
Proof. rewrite group_is_fold. apply (group_fold_permutation ds []). Qed.

(** Two [Map]s with the same keys in the same order, each once, and the
    same value under every key, are the same. *)
Lemma AppMap_ext (m1 : AppMap) :
  forall m2,
    map fst m1 = map fst m2 ->
    NoDup (map fst m1) ->
    (forall n, Map_get m1 n = Map_get m2 n) ->
    m1 = m2.
Proof.
  induction m1 as [|[k v1] m1 IH]; intros [|[k2 v2] m2] Hk Hnd Hg;
    try discriminate; [reflexivity|].
  simpl in Hk. injection Hk as <- Hk.
  inversion Hnd as [|? ? Hfresh Hnd']; subst.
  pose proof (Hg k) as Hv. simpl in Hv. rewrite String.eqb_refl in Hv.
  injection Hv as <-. f_equal.
  apply IH; [exact Hk|exact Hnd'|].
  intros n. destruct (k =? n) eqn:Hn.
  - apply String.eqb_eq in Hn. subst n.
    rewrite !Map_get_absent; [reflexivity| |exact Hfresh].
    now rewrite <- Hk.
  - specialize (Hg n). simpl in Hg. now rewrite Hn in Hg.
Qed.

Lemma filter_named_all (n : string) (v : list Deployment) :
  (forall d, In d v -> name d = n) -> filter (named n) v = v.
Proof.
  induction v as [|d v IH]; intros H; simpl; [reflexivity|].
  unfold named at 1. rewrite (H d (or_introl eq_refl)), String.eqb_refl.
  f_equal. apply IH. intros x Hx. apply H. now right.
Qed.

Lemma filter_named_none (k n : string) (v : list Deployment) :
  k <> n -> (forall d, In d v -> name d = k) -> filter (named n) v = [].
Proof.
  intros Hne H. apply filter_nothing. intros d Hd. unfold named.
  rewrite (H d Hd). now apply String.eqb_neq.
Qed.

(** In a [Map] whose groups hold deployments of their key only, the
    deployments of a name, over all the groups, are the group of that
    name. *)
Lemma filter_named_groups (n : string) (m : AppMap) :
  NoDup (map fst m) ->
  (forall k v, In (k, v) m -> forall d, In d v -> name d = k) ->
  filter (named n) (flat_map snd m)
  = match Map_get m n with
    | Some v => v
    | None => []
    end.
Proof.
  induction m as [|[k v] m IH]; intros Hnd Hm; simpl; [reflexivity|].
  inversion Hnd as [|? ? Hfresh Hnd']; subst.
  assert (Hv : forall d, In d v -> name d = k).
  { apply (Hm k v). now left. }
  assert (Hm' : forall k' v', In (k', v') m ->
                              forall d, In d v' -> name d = k').
  { intros k' v' Hin. apply (Hm k' v'). now right. }
  rewrite filter_app, (IH Hnd' Hm').
  destruct (k =? n) eqn:Hn.
  - apply String.eqb_eq in Hn. subst n.
    rewrite (filter_named_all k v Hv), (Map_get_absent m k Hfresh).
    apply app_nil_r.
  - apply String.eqb_neq in Hn. now rewrite (filter_named_none k n v Hn Hv).
Qed.

Lemma first_seen_skip (l r seen : list string) :
  (forall x, In x l -> In x seen) ->
  first_seen seen (l ++ r) = first_seen seen r.
Proof.
  induction l as [|x l IH]; intros H; simpl; [reflexivity|].
  assert (Hx : existsb (String.eqb x) seen = true).
  { apply existsb_eqb_In. apply H. now left. }
  rewrite Hx. apply IH. intros y Hy. apply H. now right.
Qed.

(** The names met along the groups of a [Map], each group non-empty and
    holding deployments of its key only, are its keys. *)
Lemma first_seen_groups (m : AppMap) :
  forall seen,
    NoDup (map fst m) ->
    (forall k v, In (k, v) m ->
                 v <> [] /\ forall d, In d v -> name d = k) ->
    (forall k, In k (map fst m) -> ~ In k seen) ->
    first_seen seen (map name (flat_map snd m)) = map fst m.
Proof.
  induction m as [|[k v] m IH]; intros seen Hnd Hm Hseen; [reflexivity|].
  inversion Hnd as [|? ? Hfresh Hnd']; subst.
  destruct (Hm k v (or_introl eq_refl)) as (Hne & Hv).
  destruct v as [|d v]; [congruence|].
  simpl. rewrite (Hv d (or_introl eq_refl)).
  assert (Hk : existsb (String.eqb k) seen = false).
  { apply not_true_is_false. intros H. apply existsb_eqb_In in H.
    apply (Hseen k); [now left|exact H]. }
  rewrite Hk, map_app, first_seen_skip.
  - f_equal. apply IH; [exact Hnd'| |].
    + intros k' v' Hin. apply Hm. now right.
    + intros k' Hin [<-|Hs]; [exact (Hfresh Hin)|].
      apply (Hseen k'); [now right|exact Hs].
  - intros x Hx. apply in_map_iff in Hx. destruct Hx as (d' & <- & Hd').
    left. symmetry. apply Hv. now right.
Qed.

(** X8.  Grouping is stable: the deployments read back from the groups,
    group after group, are grouped in the same groups, with the same
    members, in the same order. *)
Theorem regrouping_gives_the_same_groups (ds : list Deployment) :
  group (flat_map snd (group ds)) = group ds.
Proof.
  assert (Hm : forall k v, In (k, v) (group ds) ->
                           v <> [] /\ forall d, In d v -> name d = k).
  { intros k v Hin. apply group_In in Hin. destruct Hin as (Hne & ->).
    split; [exact Hne|].
    intros d Hd. apply filter_In in Hd. destruct Hd as (_ & Hd).
    now apply String.eqb_eq in Hd. }
  apply AppMap_ext.
  - rewrite group_keys. apply first_seen_groups.
    + apply group_keys_NoDup.
    + exact Hm.
    + intros k _ [].
  - apply group_keys_NoDup.
  - intros n. rewrite (group_lookup (flat_map snd (group ds))).
    rewrite filter_named_groups.
    + rewrite group_lookup. destruct (filter (named n) ds); reflexivity.
    + apply group_keys_NoDup.
    + intros k v Hin. apply (Hm k v Hin).
Qed.

(* ------------------------------------------------------------------ *)
(** ** The width of the url column, again *)

Lemma fold_max_list_max (ds : list Deployment) :
  forall acc,
    fold_left (fun acc i => Nat.max acc (url_length_of i)) ds acc
    = Nat.max acc (list_max (map url_length_of ds)).
Proof.
  induction ds as [|a ds IH]; intros acc; simpl.
  - lia.
  - rewrite IH. lia.
Qed.

Lemma urlLength_list_max (ds : list Deployment) :
  urlLength ds = list_max (map url_length_of ds) + 5.
Proof. unfold urlLength. rewrite fold_max_list_max. lia. Qed.

Lemma list_max_permutation (l l' : list nat) :
  Permutation l l' -> list_max l = list_max l'.
Proof.
  induction 1 as [|x l l' _ IH|x y l|l l' l'' _ IH1 _ IH2]; simpl.
  - reflexivity.
  - now rewrite IH.
  - lia.
  - congruence.
Qed.

Lemma list_max_attained (ds : list Deployment) :
  ds <> [] ->
  exists d, In d ds /\ list_max (map url_length_of ds) = url_length_of d.
Proof.
  induction ds as [|a ds IH]; intros Hne; [congruence|].
  destruct ds as [|b ds].
  - exists a. split; [now left|]. simpl. lia.
  - destruct IH as (d & Hd & Hmax); [discriminate|].
    change (list_max (map url_length_of (a :: b :: ds)))
      with (Nat.max (url_length_of a) (list_max (map url_length_of (b :: ds)))).
    rewrite Hmax.
    destruct (Nat.le_ge_cases (url_length_of a) (url_length_of d)) as [H|H].
    + exists d. split; [now right|lia].
    + exists a. split; [now left|lia].
Qed.

(** X9.  The width of the url column is exact and does not depend on the
    order of the listing: it is 5 when nothing is listed, and otherwise
    the length of the url of some listed deployment (0 for an absent url)
    plus 5; listings that are permutations of one another give the same
    width. *)
Theorem url_column_width_is_exact (ds : list Deployment) :
  urlLength [] = 5 /\
  (ds <> [] -> exists d, In d ds /\ urlLength ds = url_length_of d + 5) /\
  (forall ds', Permutation ds ds' -> urlLength ds = urlLength ds').
Proof.
  split; [reflexivity|]. split.
  - intros Hne. destruct (list_max_attained ds Hne) as (d & Hd & Hmax).
    exists d. split; [exact Hd|]. rewrite urlLength_list_max. lia.
  - intros ds' Hp. rewrite !urlLength_list_max. f_equal.
    apply list_max_permutation. now apply Permutation_map.
Qed.

Lemma url_column_width_is_exact_witness :
  let ds := [no_scale_dep "d1" "api" "api.x.co";
             no_scale_dep "d2" "web" "a-much-longer-name.x.co"] in
  (exists d, In d ds /\ urlLength ds = url_length_of d + 5) /\
  urlLength ds = urlLength (rev ds).
Proof.
  cbv zeta.
  destruct (url_column_width_is_exact
              [no_scale_dep "d1" "api" "api.x.co";
               no_scale_dep "d2" "web" "a-much-longer-name.x.co"])
    as (_ & H1 & H2).
  split.
  - apply H1. discriminate.
  - apply H2. apply Permutation_rev.
Defined.

(* ------------------------------------------------------------------ *)
(** ** Instance expansion: the fetches that succeed *)







(* ------------------------------------------------------------------ *)
(** ** The shape of the report *)

Lemma count_site_app (s : Site) (l1 l2 : list Line) :
  count_site s (l1 ++ l2) = count_site s l1 + count_site s l2.
Proof. unfold count_site. now rewrite filter_app, length_app. Qed.

Lemma count_site_cons (s : Site) (l : Line) (ls : list Line) :
  count_site s (l :: ls)
  = (if Site_eqb (site l) s then 1 else 0) + count_site s ls.
Proof. unfold count_site. simpl. destruct (Site_eqb (site l) s); reflexivity. Qed.

Lemma count_site_flat_map {A} (s : Site) (f : A -> list Line) (l : list A) :
  count_site s (flat_map f l) = list_sum (map (fun x => count_site s (f x)) l).
Proof.
  induction l as [|a l IH]; simpl; [reflexivity|].
  now rewrite count_site_app, IH.
Qed.

Lemma list_sum_const {A} (c : nat) (l : list A) :
  list_sum (map (fun _ => c) l) = c * List.length l.
Proof. induction l as [|a l IH]; simpl; [lia|]. rewrite IH. lia. Qed.

Lemma list_sum_ext {A} (f h : A -> nat) (l : list A) :
  (forall x, f x = h x) -> list_sum (map f l) = list_sum (map h l).
Proof. intros H. induction l as [|a l IH]; simpl; [reflexivity|]. now rewrite H, IH. Qed.

(** The lines beneath a row: one per instance, and a blank one when there
    is an instance. *)
Lemma count_site_instance_lines (P : Packages) (urlL : nat) (dep : Deployment)
    (s : Site) :
  count_site s (instance_lines P urlL dep)
  = match s with
    | SInstance => List.length (instances_of dep)
    | SInstanceEnd => match instances_of dep with [] => 0 | _ => 1 end
    | _ => 0
    end.
Proof.
  unfold instance_lines, instances_of.
  destruct (instances dep) as [[|i l]|]; try (destruct s; reflexivity).
  rewrite count_site_app.
  assert (Hmap : forall l0 : list Instance,
    count_site s
      (map (fun i0 => {| site := SInstance;
                         text := printf P (" %-" ++ string_of_nat (urlL + 10) ++ "s")
                                        [" - " ++ chalk_underline P (i_url i0)] |})
           l0)
    = if Site_eqb SInstance s then List.length l0 else 0).
  { induction l0 as [|x l0 IH0]; [destruct s; reflexivity|].
    cbn [map]. rewrite count_site_cons, IH0. cbn [site].
    destruct (Site_eqb SInstance s); reflexivity. }
  rewrite Hmap. unfold count_site. destruct s; simpl; lia.
Qed.

Lemma count_site_row_lines (P : Packages) (urlL : nat) (inc : bool)
    (clock : Clock) (dep : Deployment) (s : Site) :
  count_site s (row_lines P urlL inc clock dep)
  = (if Site_eqb SRow s then 1 else 0)
    + count_site s (instance_lines P urlL dep).
Proof.
  destruct (row_lines_shape P urlL inc clock dep) as (t & ->).
  now rewrite count_site_cons.
Qed.

Lemma count_site_render_group (P : Packages) (expand_all : bool) (urlL : nat)
    (inc : bool) (clock : Clock) (g : string * list Deployment) (s : Site) :
  count_site s (render_group P expand_all urlL inc clock g)
  = (if Site_eqb SGroupHeader s then 1 else 0)
    + (if Site_eqb SColumns s then 1 else 0)
    + list_sum (map (fun d => count_site s (row_lines P urlL inc clock d))
                    (if expand_all then snd g else firstn 5 (snd g)))
    + (if Site_eqb SGroupEnd s then 1 else 0).
Proof.
  destruct g as [n deps]. unfold render_group.
  rewrite !count_site_cons, count_site_app, count_site_flat_map,
    count_site_cons.
  cbn [site snd]. unfold count_site at 2. simpl. lia.
Qed.

Lemma length_listed (expand_all : bool) (deps : list Deployment) :
  List.length (if expand_all then deps else firstn 5 deps)
  = listed expand_all (List.length deps).
Proof.
  unfold listed. destruct expand_all; [reflexivity|].
  rewrite length_firstn. apply Nat.min_comm.
Qed.

(** The lines of the report written at one place of the source. *)
Lemma count_site_present (P : Packages) (expand_all : bool) (s : Sh)
    (inc : bool) (clock : Clock) (ds : list Deployment) (apps sorted : AppMap)
    (st : Site) :
  count_site st (present P expand_all s inc clock ds apps sorted)
  = (if Site_eqb SSummary st then 1 else 0)
    + (if negb expand_all && shouldShowAllInfo apps
       then if Site_eqb SHint st then 1 else 0 else 0)
    + (if Site_eqb SBlank st then 1 else 0)
    + list_sum
        (map (fun g =>
                (if Site_eqb SGroupHeader st then 1 else 0)
                + (if Site_eqb SColumns st then 1 else 0)
                + list_sum
                    (map (fun d =>
                            (if Site_eqb SRow st then 1 else 0)
                            + count_site st (instance_lines P (urlLength ds) d))
                         (if expand_all then snd g else firstn 5 (snd g)))
                + (if Site_eqb SGroupEnd st then 1 else 0))
             sorted).
Proof.
  unfold present.
  rewrite count_site_cons, count_site_app, count_site_cons,
    count_site_flat_map.
  cbn [site summary_line].
  rewrite (list_sum_ext _ _ sorted
             (fun g => count_site_render_group P expand_all (urlLength ds)
                         inc clock g st)).
  rewrite (list_sum_ext
             (fun g =>
                (if Site_eqb SGroupHeader st then 1 else 0)
                + (if Site_eqb SColumns st then 1 else 0)
                + list_sum
                    (map (fun d => count_site st
                                     (row_lines P (urlLength ds) inc clock d))
                         (if expand_all then snd g else firstn 5 (snd g)))
                + (if Site_eqb SGroupEnd st then 1 else 0))
             (fun g =>
                (if Site_eqb SGroupHeader st then 1 else 0)
                + (if Site_eqb SColumns st then 1 else 0)
                + list_sum
                    (map (fun d =>
                            (if Site_eqb SRow st then 1 else 0)
                            + count_site st (instance_lines P (urlLength ds) d))
                         (if expand_all then snd g else firstn 5 (snd g)))
                + (if Site_eqb SGroupEnd st then 1 else 0))
             sorted).
  - destruct (negb expand_all && shouldShowAllInfo apps);
      [rewrite count_site_cons; cbn [site hint_line]|];
      unfold count_site; simpl; lia.
  - intros g. do 2 f_equal. apply list_sum_ext. intros d.
    apply count_site_row_lines.
Qed.

(** X12.  The report, line by line: it opens with the summary, written
    once, and has one blank line before the groups; each sorted group has
    one header, one line of column titles and one closing blank line; the
    rows number, group by group, all the members when expansion is
    requested and at most 5 when it is not; and under the rows there is one
    line per instance carried by a listed deployment. *)
Theorem shape_of_the_report (P : Packages) (expand_all : bool) (s : Sh)
    (inc : bool) (clock : Clock) (ds : list Deployment) (apps sorted : AppMap) :
  let ls := present P expand_all s inc clock ds apps sorted in
  hd_error ls = Some (summary_line P s clock ds) /\
  count_site SSummary ls = 1 /\
  count_site SBlank ls = 1 /\
  count_site SGroupHeader ls = List.length sorted /\
  count_site SColumns ls = List.length sorted /\
  count_site SGroupEnd ls = List.length sorted /\
  count_site SRow ls
  = list_sum (map (fun g => listed expand_all (List.length (snd g))) sorted) /\
  count_site SInstance ls
  = list_sum
      (map (fun g =>
              list_sum (map (fun d => List.length (instances_of d))
                            (if expand_all then snd g else firstn 5 (snd g))))
           sorted).
Proof.
  cbv zeta.
  pose proof (count_site_present P expand_all s inc clock ds apps sorted)
    as Hg.
  split; [reflexivity|].
  repeat match goal with |- _ /\ _ => split end; rewrite Hg; cbn [Site_eqb].
  - rewrite (list_sum_ext _ (fun _ => 0) sorted).
    + rewrite list_sum_const. destruct (negb expand_all && _); lia.
    + intros g. rewrite (list_sum_ext _ (fun _ => 0)).
      * rewrite list_sum_const. lia.
      * intros d. now rewrite count_site_instance_lines.
  - rewrite (list_sum_ext _ (fun _ => 0) sorted).
    + rewrite list_sum_const. destruct (negb expand_all && _); lia.
    + intros g. rewrite (list_sum_ext _ (fun _ => 0)).
      * rewrite list_sum_const. lia.
      * intros d. now rewrite count_site_instance_lines.
  - rewrite (list_sum_ext _ (fun _ => 1) sorted).
    + rewrite list_sum_const. destruct (negb expand_all && _); lia.
    + intros g. rewrite (list_sum_ext _ (fun _ => 0)).
      * rewrite list_sum_const. lia.
      * intros d. now rewrite count_site_instance_lines.
  - rewrite (list_sum_ext _ (fun _ => 1) sorted).
    + rewrite list_sum_const. destruct (negb expand_all && _); lia.
    + intros g. rewrite (list_sum_ext _ (fun _ => 0)).
      * rewrite list_sum_const. lia.
      * intros d. now rewrite count_site_instance_lines.
  - rewrite (list_sum_ext _ (fun _ => 1) sorted).
    + rewrite list_sum_const. destruct (negb expand_all && _); lia.
    + intros g. rewrite (list_sum_ext _ (fun _ => 0)).
      * rewrite list_sum_const. lia.
      * intros d. now rewrite count_site_instance_lines.
  - rewrite (list_sum_ext _ (fun g => listed expand_all (List.length (snd g)))
               sorted).
    + destruct (negb expand_all && _); lia.
    + intros g. rewrite (list_sum_ext _ (fun _ => 1)).
      * rewrite list_sum_const, length_listed. lia.
      * intros d. now rewrite count_site_instance_lines.
  - rewrite (list_sum_ext _
               (fun g => list_sum
                           (map (fun d => List.length (instances_of d))
                                (if expand_all then snd g
                                 else firstn 5 (snd g))))
               sorted).
    + destruct (negb expand_all && _); lia.
    + intros g. rewrite (list_sum_ext _ (fun d => List.length (instances_of d))).
      * lia.
      * intros d. now rewrite count_site_instance_lines.
Qed.

(** X13.  The hint is written at most once; never when expansion is
    requested; and when expansion is not requested and some group has more
    than 5 members, it is the second line of the report, between the
    summary and the blank line that precedes the groups. *)
Theorem hint_at_most_once_never_with_expansion (P : Packages)
    (expand_all : bool) (s : Sh) (inc : bool) (clock : Clock)
    (ds : list Deployment) (apps sorted : AppMap) :
  let ls := present P expand_all s inc clock ds apps sorted in
  count_site SHint ls <= 1 /\
  (expand_all = true -> count_site SHint ls = 0) /\
  (expand_all = false ->
   (exists app, In app apps /\ 5 < List.length (snd app)) ->
   count_site SHint ls = 1 /\
   ls = summary_line P s clock ds
        :: hint_line P
        :: {| site := SBlank; text := "" |}
        :: flat_map (render_group P expand_all (urlLength ds) inc clock) sorted).
Proof.
  cbv zeta.
  assert (Hc : count_site SHint (present P expand_all s inc clock ds apps sorted)
               = if negb expand_all && shouldShowAllInfo apps then 1 else 0).
  { rewrite count_site_present. cbn [Site_eqb].
    rewrite (list_sum_ext _ (fun _ => 0) sorted).
    - rewrite list_sum_const. destruct (negb expand_all && _); lia.
    - intros g. rewrite (list_sum_ext _ (fun _ => 0)).
      + rewrite list_sum_const. lia.
      + intros d. now rewrite count_site_instance_lines. }
  rewrite Hc. split; [destruct (negb expand_all && _); lia|].
  split; [intros ->; reflexivity|].
  intros -> (app & Hin & Hlt).
  assert (Hs : shouldShowAllInfo apps = true).
  { rewrite shouldShowAllInfo_spec. apply existsb_exists.
    exists app. split; [exact Hin|now apply Nat.ltb_lt]. }
  unfold present. rewrite Hs. split; reflexivity.
Qed.

Lemma hint_at_most_once_never_with_expansion_witness :
  let deps := map (fun u => no_scale_dep u "api" "api.x.co")
                  ["d1"; "d2"; "d3"; "d4"; "d5"; "d6"] in
  count_site SHint
    (present plain true some_sh false some_clock deps (group deps)
             (sort plain (group deps))) = 0 /\
  count_site SHint
    (present plain false some_sh false some_clock deps (group deps)
             (sort plain (group deps))) = 1.
Proof.
  cbv zeta. split.
  - apply (hint_at_most_once_never_with_expansion plain true some_sh false
             some_clock). reflexivity.
  - apply (hint_at_most_once_never_with_expansion plain false some_sh false
             some_clock
             (map (fun u => no_scale_dep u "api" "api.x.co")
                  ["d1"; "d2"; "d3"; "d4"; "d5"; "d6"])).
    + reflexivity.
    + eexists. split; [left; reflexivity|]. simpl. lia.
Defined.

(* ------------------------------------------------------------------ *)
(** ** The resolver: where a result comes from *)

(** X14.  The resolver does not make up a result.  What it returns is the
    reply of the listing itself, when that reply holds a deployment or when
    no fallback finds one; or else, the listing having given nothing, the
    one deployment found by the lookup of the target or, that lookup having
    found nothing, by the lookup of the deployment of the alias picked for
    the target. *)
Theorem resolved_deployments_come_from_the_client (P : Packages) (now : Now)
    (app : option string) (x : option (list Deployment)) (w : World) :
  run (resolve P now app) = (Ret x, w) ->
  now_list now app = Resolved x \/
  (tier1_empty now app /\
   exists d, x = Some [d] /\
     (findDeployment now app = Resolved (Some d) \/
      (findDeployment now app = Resolved None /\
       exists aliases item,
         listAliases now = Resolved aliases /\
         alias_for app aliases = Some item /\
         findDeployment now (Some (deploymentId item)) = Resolved (Some d)))).
Proof.
  unfold tier1_empty. run_resolve.
  destruct (now_list now app) as [d|e1] eqn:H1; simpl; [|discriminate].
  destruct (is_empty d) eqn:Hd; simpl.
  - destruct (findDeployment now app) as [[m|]|e2] eqn:H2; simpl;
      try discriminate.
    + intros H. injection H as <- _. right. split; [eauto|]. eauto.
    + rewrite Hd.
      destruct (listAliases now) as [al|e3] eqn:H3; simpl; try discriminate.
      destruct (find _ al) as [item|] eqn:H4; simpl.
      * destruct (findDeployment now (Some (deploymentId item)))
          as [[m|]|e4] eqn:H5; simpl; try discriminate.
        -- intros H. injection H as <- _. right. split; [eauto|].
           exists m. split; [reflexivity|]. right. split; [reflexivity|].
           exists al, item. auto.
        -- intros H. injection H as <- _. now left.
      * intros H. injection H as <- _. now left.
  - rewrite Hd. intros H. injection H as <- _. now left.
Qed.

Lemma resolved_deployments_come_from_the_client_witness :
  now_list now_one_alias (Some "foo.now.sh") = Resolved (Some [dep_live]) \/
  (tier1_empty now_one_alias (Some "foo.now.sh") /\
   exists d, Some [dep_live] = Some [d] /\
     (findDeployment now_one_alias (Some "foo.now.sh") = Resolved (Some d) \/
      (findDeployment now_one_alias (Some "foo.now.sh") = Resolved None /\
       exists aliases item,
         listAliases now_one_alias = Resolved aliases /\
         alias_for (Some "foo.now.sh") aliases = Some item /\
         findDeployment now_one_alias (Some (deploymentId item))
         = Resolved (Some d)))).
Proof.
  apply (resolved_deployments_come_from_the_client plain now_one_alias
           (Some "foo.now.sh") (Some [dep_live])
           {| calls := [CList (Some "foo.now.sh"); CFind (Some "foo.now.sh");
                        CAliases; CFind (Some "d2")];
              out := [] |}).
  reflexivity.
Defined.
